(** * boilr: context binding and template execution (package template)

    Shallow embedding of [pkg/template/template.go] of boilr: the context
    loader [Get], the binders [BindPrompts], [handleBindDefaults] and
    [handleBindPrompts], and the directory walk of [Execute] with its
    output pruning. *)

From Stdlib Require Import String Ascii List ZArith Bool Lia Permutation.
Import ListNotations.
Open Scope string_scope.
Set Warnings "-register-all".

(** ** Dynamic values

    [encoding/json] decodes the context file into [interface{}] values:
    nil, bool, float64, string, [[]interface{}] and [map[string]interface{}].
    Numbers are kept as integers here. A decoded map holds one entry per key,
    so an object is an association list with distinct keys. *)

Inductive jval :=
| JNull
| JBool (b : bool)
| JNum (z : Z)
| JStr (s : string)
| JList (l : list jval)
| JObj (m : list (string * jval)).

(** The context: [map[string]interface{}], iterated by [range] in some order;
    every order is covered since the theorems quantify over all lists. *)
Definition context := list (string * jval).

(** ** Prompt state

    A prompt closure is identified by where [prompt.New] was called: the
    prompt of a top-level key (also the advanced-mode prompt of a group)
    or the prompt of a group child. *)

Inductive pid := PKey (k : string) | PChild (k c : string).

Definition pid_eqb (a b : pid) : bool :=
  match a, b with
  | PKey x, PKey y => String.eqb x y
  | PChild x1 x2, PChild y1 y2 => String.eqb x1 y1 && String.eqb x2 y2
  | _, _ => false
  end.

(** What the user does at a prompt: accept the shown default or type a value. *)
Inductive reply := Accept | Answer (v : jval).

(** [memo]: the cache of every prompt closure already answered;
    [inputs]: the user's replies still to come; [asked]: the prompts shown,
    in order. *)
Record pstate := mkPState {
  memo : list (pid * jval);
  inputs : list reply;
  asked : list pid
}.

Fixpoint memo_lookup (id : pid) (m : list (pid * jval)) : option jval :=
  match m with
  | [] => None
  | (i, v) :: m' => if pid_eqb i id then Some v else memo_lookup id m'
  end.

(** Result of calling a [func() interface{}] of the function map. [Abort]
    is an interrupted prompt (a fatal input error). *)
Inductive outcome := Ret (v : jval) | Panic (msg : string) | Abort.

Definition binding := pstate -> outcome * pstate.

(** [template.FuncMap]: name to function. *)
Definition funcmap := string -> option binding.

Definition fm_empty : funcmap := fun _ => None.

(** [t.FuncMap[k] = b] *)
Definition fm_set (k : string) (b : binding) (fm : funcmap) : funcmap :=
  fun n => if String.eqb n k then Some b else fm n.

(** The default a prompt shows: the first choice of a list, else the value. *)
Definition prompt_default (def : jval) : jval :=
  match def with
  | JList (x :: _) => x
  | JList [] => JNull
  | _ => def
  end.

(** Modelled from the spec: [prompt.New] of package prompt (not among the
    sources). "In Interactive mode this binding wraps a user confirmation
    prompt, evaluated lazily and memoized on first use"; the prompt is
    "seeded with" the default; "an interactive prompt aborted by the user
    propagates as a fatal input error". Creating the closure asks nothing;
    the first call asks the user once and caches the answer. *)
Definition prompt_New (id : pid) (def : jval) : binding := fun s =>
  match memo_lookup id (memo s) with
  | Some v => (Ret v, s)
  | None =>
      match inputs s with
      | [] => (Abort, s)
      | r :: rest =>
          let v := match r with Accept => prompt_default def | Answer a => a end in
          (Ret v, mkPState ((id, v) :: memo s) rest (asked s ++ [id]))
      end
  end.

(** ** handleBindDefaults *)

(** The closure body of handleBindDefaults:
    [switch val := val.(type) { case []interface{}: return val[0] }; return val].
    Indexing an empty slice panics. *)
Definition first_default (val : jval) : outcome :=
  match val with
  | JList l =>
      match l with
      | x :: _ => Ret x
      | [] => Panic "runtime error: index out of range [0] with length 0"
      end
  | _ => Ret val
  end.

Definition default_binding (val : jval) : binding := fun s => (first_default val, s).

(** [func() bool { return false }] *)
Definition false_binding : binding := fun s => (Ret (JBool false), s).

Definition handleBindDefaults (fm : funcmap) (parentKey : string) (v : jval) : funcmap :=
  match v with
  | JObj childMap =>
      let fm1 := if Nat.ltb 0 (length childMap) then fm_set parentKey false_binding fm else fm in
      fold_left (fun fm kv => let '(childKey, cv) := kv in
                  fm_set childKey (default_binding cv) fm) childMap fm1
  | _ => fm_set parentKey (default_binding v) fm
  end.

(** ** handleBindPrompts *)

(** The child closure of handleBindPrompts:
    [if isAdvanced := advancedMode().(bool); isAdvanced { return p() }; return val].
    The type assertion panics on a non-bool answer. *)
Definition child_binding (advancedMode : binding) (val : jval) (p : binding) : binding :=
  fun s =>
    match advancedMode s with
    | (Ret (JBool true), s1) => p s1
    | (Ret (JBool false), s1) => (Ret val, s1)
    | (Ret _, s1) => (Panic "interface conversion: interface {} is not bool", s1)
    | (o, s1) => (o, s1)
    end.

(** The gate entry [func() interface{} { return advancedMode() }] is the
    advanced-mode prompt itself. *)
Definition handleBindPrompts (fm : funcmap) (parentKey : string) (v : jval) : funcmap :=
  match v with
  | JObj childMap =>
      let advancedMode := prompt_New (PKey parentKey) (JBool false) in
      let fm1 := if Nat.ltb 0 (length childMap) then fm_set parentKey advancedMode fm else fm in
      fold_left (fun fm kv => let '(childKey, cv) := kv in
                  let childPrompt := prompt_New (PChild parentKey childKey) cv in
                  fm_set childKey (child_binding advancedMode cv childPrompt) fm)
                childMap fm1
  | _ => fm_set parentKey (prompt_New (PKey parentKey) v) fm
  end.

(** ** The template *)

(** One entry of [filepath.Walk] over the template directory, in walk
    order: its path relative to the root as segments ([[]] is the root,
    whose [filepath.Rel] is ["."]) and, for a file, its bytes and mode. *)
Inductive skind := SDir | SFile (data : string) (mode : Z).

Record sentry := mkSEntry { segs : list string; kind : skind }.

(** [dirTemplate]; [Path] stands for the walk of the template directory,
    [FuncMap] is the shared function map (the helpers, then the bindings). *)
Record dirTemplate := mkTemplate {
  Path : list sentry;
  Context : context;
  FuncMap : funcmap;
  ShouldUseDefaults : bool
}.

(** The body of the loop of [BindPrompts]. *)
Definition bind_key (useDefaults : bool) (fm : funcmap) (parentKey : string) (v : jval)
  : funcmap :=
  if useDefaults then handleBindDefaults fm parentKey v
  else handleBindPrompts fm parentKey v.

Definition BindPrompts (t : dirTemplate) : funcmap :=
  fold_left (fun fm kv => let '(parentKey, v) := kv in
              bind_key (ShouldUseDefaults t) fm parentKey v)
            (Context t) (FuncMap t).

(** [UseDefaultValues]: [t.ShouldUseDefaults = true]. *)
Definition UseDefaultValues (t : dirTemplate) : dirTemplate :=
  mkTemplate (Path t) (Context t) (FuncMap t) true.

(** ** The template language (text/template, the fragment used here)

    Text and actions [{{ ... }}]. Inside an action the fragment covers a
    field of the data ([.name]) and a call of a function of the function map
    ([name]); any other action (pipelines, keywords, literals, comments,
    trim markers) is reported as [PUnsupported], outside this model. *)

Inductive token := TokText (s : string) | TokAction (s : string).

Fixpoint string_rev_app (s acc : string) : string :=
  match s with
  | EmptyString => acc
  | String a s' => string_rev_app s' (String a acc)
  end.

Definition string_rev (s : string) : string := string_rev_app s EmptyString.

Definition flush_text (cur : string) : list token :=
  match cur with
  | EmptyString => []
  | _ => [TokText (string_rev cur)]
  end.

(** The lexer: [cur] holds the current text or action reversed. [None] is
    the parse error "unclosed action". *)
Fixpoint lex (s : string) (inAction : bool) (cur : string) : option (list token) :=
  match s with
  | EmptyString => if inAction then None else Some (flush_text cur)
  | String a s' =>
      match s' with
      | String b s'' =>
          if inAction then
            if Ascii.eqb a "}"%char && Ascii.eqb b "}"%char
            then option_map (cons (TokAction (string_rev cur))) (lex s'' false EmptyString)
            else lex s' true (String a cur)
          else
            if Ascii.eqb a "{"%char && Ascii.eqb b "{"%char
            then option_map (app (flush_text cur)) (lex s'' true EmptyString)
            else lex s' false (String a cur)
      | EmptyString => lex s' inAction (String a cur)
      end
  end.

Inductive tnode := TText (s : string) | TField (name : string) | TCall (name : string).

Inductive presult := POk (ns : list tnode) | PErr (msg : string) | PUnsupported.

Definition is_space (a : ascii) : bool :=
  Ascii.eqb a " " || Ascii.eqb a "009"%char || Ascii.eqb a "010"%char
  || Ascii.eqb a "013"%char.

Fixpoint trim_left (s : string) : string :=
  match s with
  | String a s' => if is_space a then trim_left s' else s
  | EmptyString => EmptyString
  end.

Definition trim (s : string) : string := string_rev (trim_left (string_rev (trim_left s))).

Definition is_letter (a : ascii) : bool :=
  let n := nat_of_ascii a in
  ((65 <=? n)%nat && (n <=? 90)%nat) || ((97 <=? n)%nat && (n <=? 122)%nat) || Ascii.eqb a "_".

Definition is_digit (a : ascii) : bool :=
  let n := nat_of_ascii a in (48 <=? n)%nat && (n <=? 57)%nat.

Fixpoint all_ident_chars (s : string) : bool :=
  match s with
  | EmptyString => true
  | String a s' => (is_letter a || is_digit a) && all_ident_chars s'
  end.

Definition is_ident (s : string) : bool :=
  match s with
  | EmptyString => false
  | String a s' => is_letter a && all_ident_chars s'
  end.

Definition keywords : list string :=
  ["block"; "break"; "continue"; "define"; "else"; "end"; "if"; "range";
   "nil"; "template"; "with"; "true"; "false"].

Definition builtins : list string :=
  ["and"; "call"; "html"; "index"; "slice"; "js"; "len"; "not"; "or";
   "print"; "printf"; "println"; "urlquery"; "eq"; "ge"; "gt"; "le"; "lt"; "ne"].

(** [%q] of a plain name. *)
Definition quote (s : string) : string :=
  String "034"%char (s ++ String "034"%char EmptyString).

Definition in_strings (x : string) (l : list string) : bool :=
  existsb (String.eqb x) l.

(** One action. A function name is checked against the function map when
    the template is parsed ("function %q not defined"). *)
Definition parse_action (fm : funcmap) (raw : string) : presult :=
  match trim raw with
  | EmptyString => PErr "missing value for command"
  | String "." f =>
      if is_ident f then POk [TField f] else PUnsupported
  | a =>
      if is_ident a then
        if in_strings a keywords then PUnsupported
        else match fm a with
             | Some _ => POk [TCall a]
             | None => if in_strings a builtins then PUnsupported
                       else PErr ("function " ++ quote a ++ " not defined")
             end
      else PUnsupported
  end.

Fixpoint parse_tokens (fm : funcmap) (ts : list token) : presult :=
  match ts with
  | [] => POk []
  | TokText s :: ts' =>
      match parse_tokens fm ts' with
      | POk ns => POk (TText s :: ns)
      | r => r
      end
  | TokAction a :: ts' =>
      match parse_action fm a with
      | POk n => match parse_tokens fm ts' with
                 | POk ns => POk (n ++ ns)
                 | r => r
                 end
      | r => r
      end
  end.

(** [template.New(..).Funcs(fm).Parse(src)] *)
Definition parse (fm : funcmap) (src : string) : presult :=
  match lex src false EmptyString with
  | None => PErr "unclosed action"
  | Some ts => parse_tokens fm ts
  end.

(** ** Printing values (fmt's [%v], as text/template prints an action) *)

Fixpoint digits_of (fuel : nat) (n : N) (acc : string) : string :=
  match fuel with
  | O => acc
  | S f =>
      let acc' := String (ascii_of_N (48 + N.modulo n 10)) acc in
      if (N.div n 10 =? 0)%N then acc' else digits_of f (N.div n 10) acc'
  end.

Definition show_N (n : N) : string := digits_of (S (N.size_nat n)) n EmptyString.

Definition show_Z (z : Z) : string :=
  if (z <? 0)%Z then "-" ++ show_N (Z.to_N (- z)) else show_N (Z.to_N z).

Fixpoint insert_entry (e : string * string) (l : list (string * string)) :=
  match l with
  | [] => [e]
  | e' :: l' =>
      match String.compare (fst e) (fst e') with
      | Gt => e' :: insert_entry e l'
      | _ => e :: l
      end
  end.

Definition sort_entries (l : list (string * string)) : list (string * string) :=
  fold_right insert_entry [] l.

(** fmt prints map keys sorted. *)
Fixpoint fmt_value (v : jval) : string :=
  match v with
  | JNull => "<nil>"
  | JBool b => if b then "true" else "false"
  | JNum z => show_Z z
  | JStr s => s
  | JList l => "[" ++ String.concat " " (map fmt_value l) ++ "]"
  | JObj m =>
      "map[" ++ String.concat " " (map (fun kv => fst kv ++ ":" ++ snd kv)
                                 (sort_entries (map (fun kv => (fst kv, fmt_value (snd kv))) m)))
      ++ "]"
  end.

(** text/template prints a nil interface as ["<no value>"]. *)
Definition print_value (v : jval) : string :=
  match v with
  | JNull => "<no value>"
  | _ => fmt_value v
  end.

(** ** Executing a template

    [Options] (the [missingkey] option, declared with the package's other
    variables) decides what a field of the nil data yields. Every template is
    executed with nil data, so [.name] never reaches the function map. *)

Inductive missingkey := MKDefault | MKInvalid | MKZero | MKError.

(** Errors of the os package met here. *)
Inductive oserr := EEXIST | ENOENT | ENOTEMPTY | ENOTDIR | EISDIR.

Inductive xerr :=
| XTemplate (msg : string)   (* execution error of the template *)
| XInput                     (* aborted prompt *)
| XOs (e : oserr).          (* error of the file system *)

(** One node; its output is written before the next node runs. A panic
    in a called function is recovered by text/template and returned as an
    execution error. *)
Definition exec_node (mk : missingkey) (fm : funcmap) (n : tnode) (s : pstate)
  : string * option xerr * pstate :=
  match n with
  | TText t => (t, None, s)
  | TField f =>
      match mk with
      | MKError => (EmptyString, Some (XTemplate ("nil data; no entry for key " ++ quote f)), s)
      | _ => ("<no value>", None, s)
      end
  | TCall f =>
      match fm f with
      | None => (EmptyString, Some (XTemplate ("function " ++ quote f ++ " not defined")), s)
      | Some b =>
          match b s with
          | (Ret v, s1) => (print_value v, None, s1)
          | (Panic m, s1) => (EmptyString, Some (XTemplate m), s1)
          | (Abort, s1) => (EmptyString, Some XInput, s1)
          end
      end
  end.

(** [tmpl.Execute(w, nil)]: the output written so far, the error if any,
    the prompt state. *)
Fixpoint exec (mk : missingkey) (fm : funcmap) (ns : list tnode) (s : pstate)
  : string * option xerr * pstate :=
  match ns with
  | [] => (EmptyString, None, s)
  | n :: ns' =>
      match exec_node mk fm n s with
      | (out, None, s1) =>
          let '(out', e, s2) := exec mk fm ns' s1 in (out ++ out', e, s2)
      | (out, Some e, s1) => (out, Some e, s1)
      end
  end.

(** ** Paths *)

Fixpoint split_slash_aux (s cur : string) : list string :=
  match s with
  | EmptyString => [string_rev cur]
  | String a s' =>
      if Ascii.eqb a "/"%char then string_rev cur :: split_slash_aux s' EmptyString
      else split_slash_aux s' (String a cur)
  end.

(** The segments of a slash-separated path. *)
Definition split_slash (s : string) : list string := split_slash_aux s EmptyString.

(** [filepath.Clean] of a rooted path given by its segments: empty and
    ["."] segments vanish, [".."] removes the previous segment (nothing
    above the root). *)
Fixpoint clean_aux (ss acc : list string) : list string :=
  match ss with
  | [] => rev acc
  | x :: ss' =>
      if String.eqb x EmptyString || String.eqb x "." then clean_aux ss' acc
      else if String.eqb x ".." then clean_aux ss' (tl acc)
      else clean_aux ss' (x :: acc)
  end.

Definition clean (ss : list string) : list string := clean_aux ss [].

(** [filepath.Join(dirPrefix, newName)] for an absolute [dirPrefix]. *)
Definition join (dirPrefix : list string) (newName : string) : list string :=
  clean (dirPrefix ++ split_slash newName).

(** [filepath.Rel(t.Path, filename)]. *)
Definition rel_string (ss : list string) : string :=
  match ss with
  | [] => "."
  | _ => String.concat "/" ss
  end.

(** ** The destination file system *)

(** A node is a directory or a regular file with its permission bits as
    given at creation (the process umask is not applied); symbolic links
    are not modelled, so the statements are about trees without them. *)
Inductive fnode := FDir | FFile (data : string) (perm : Z).

Definition fsys := list (list string * fnode).

Fixpoint path_eqb (p q : list string) : bool :=
  match p, q with
  | [], [] => true
  | x :: p', y :: q' => String.eqb x y && path_eqb p' q'
  | _, _ => false
  end.

Fixpoint fs_lookup (p : list string) (fs : fsys) : option fnode :=
  match fs with
  | [] => None
  | (q, n) :: fs' => if path_eqb q p then Some n else fs_lookup p fs'
  end.

Definition fs_delete (p : list string) (fs : fsys) : fsys :=
  filter (fun e => negb (path_eqb (fst e) p)) fs.

Definition fs_put (p : list string) (n : fnode) (fs : fsys) : fsys :=
  (p, n) :: fs_delete p fs.

Fixpoint is_prefix (p q : list string) : bool :=
  match p, q with
  | [], _ => true
  | x :: p', y :: q' => String.eqb x y && is_prefix p' q'
  | _, _ => false
  end.

Inductive osres := OsOk (fs : fsys) | OsErr (e : oserr).

(** All prefixes of a path, the root [[]] first. *)
Fixpoint prefixes (p : list string) : list (list string) :=
  match p with
  | [] => [[]]
  | x :: p' => [] :: map (cons x) (prefixes p')
  end.

Definition is_file_at (q : list string) (fs : fsys) : bool :=
  match fs_lookup q fs with Some (FFile _ _) => true | _ => false end.

(** Resolving the parent directory of a path that is to be created. In a
    tree where the parent of every existing path is a directory: the parent
    is a directory, or the lookup stops at a regular file (ENOTDIR) or at a
    missing component (ENOENT). *)
Definition parent_check (p : list string) (fs : fsys) : option oserr :=
  match fs_lookup (removelast p) fs with
  | Some FDir => None
  | Some (FFile _ _) => Some ENOTDIR
  | None =>
      if existsb (fun q => is_file_at q fs) (prefixes (removelast p)) then Some ENOTDIR
      else Some ENOENT
  end.

(** [os.Mkdir] *)
Definition os_Mkdir (p : list string) (fs : fsys) : osres :=
  match fs_lookup p fs with
  | Some _ => OsErr EEXIST
  | None =>
      match parent_check p fs with
      | Some e => OsErr e
      | None => OsOk (fs_put p FDir fs)
      end
  end.

(** [os.Remove]: a file or an empty directory. *)
Definition os_Remove (p : list string) (fs : fsys) : osres :=
  match fs_lookup p fs with
  | None => OsErr ENOENT
  | Some (FFile _ _) => OsOk (fs_delete p fs)
  | Some FDir =>
      if existsb (fun e => is_prefix p (fst e) && negb (path_eqb (fst e) p)) fs
      then OsErr ENOTEMPTY else OsOk (fs_delete p fs)
  end.

(** [os.OpenFile(p, O_CREATE|O_WRONLY|O_TRUNC, perm)] *)
Definition os_OpenFile (p : list string) (perm : Z) (fs : fsys) : osres :=
  match fs_lookup p fs with
  | Some FDir => OsErr EISDIR
  | Some (FFile _ m) => OsOk (fs_put p (FFile EmptyString m) fs)
  | None =>
      match parent_check p fs with
      | Some e => OsErr e
      | None => OsOk (fs_put p (FFile EmptyString perm) fs)
      end
  end.

(** A write through the open file. *)
Definition fs_write (p : list string) (data : string) (fs : fsys) : fsys :=
  match fs_lookup p fs with
  | Some (FFile d m) => fs_put p (FFile (d ++ data) m) fs
  | _ => fs
  end.

(** [ioutil.ReadFile] *)
Definition os_ReadFile (p : list string) (fs : fsys) : option string :=
  match fs_lookup p fs with
  | Some (FFile d _) => Some d
  | _ => None
  end.

(** ** Pruning *)

(** RE2's [\s] is [[\t\n\f\r ]]. *)
Definition re2_space (a : ascii) : bool :=
  Ascii.eqb a " " || Ascii.eqb a "009"%char || Ascii.eqb a "010"%char
  || Ascii.eqb a "012"%char || Ascii.eqb a "013"%char.

Fixpoint has_nonspace (s : string) : bool :=
  match s with
  | EmptyString => false
  | String a s' => negb (re2_space a) || has_nonspace s'
  end.

(** [isOnlyWhitespace buf = !regexp.MustCompile(`\S`).Match(buf)] *)
Definition isOnlyWhitespace (buf : string) : bool := negb (has_nonspace buf).

(** The deferred function of a file entry: read the file back and remove
    it if it holds only whitespace; a read error is only logged. *)
Definition prune (fname : list string) (fs : fsys) : fsys :=
  match os_ReadFile fname fs with
  | None => fs
  | Some contents =>
      if isOnlyWhitespace contents then
        match os_Remove fname fs with
        | OsOk fs' => fs'
        | OsErr _ => fs
        end
      else fs
  end.

(** ** Execute *)

Record world := mkWorld { fs : fsys; ps : pstate }.

(** How one walk callback ends: [VPanic] is a panic of [template.Must]
    on a template that does not parse. *)
Inductive vres := VOk | VErr (e : xerr) | VPanic (msg : string) | VUnsupported.

(** A record of each entry the walk completed: its target, and for a file
    the output its template produced. (Bookkeeping for the statements.) *)
Definition trace := list (list string * option string).

(** The file branch of the walk callback, from [os.Remove(target)] on.
    The deferred functions run in reverse order: first the pruning, then
    [f.Close()]; they run whether the callback returns or panics. The
    success notice [tlog.Success] is not modelled. *)
Definition visit_file (mk : missingkey) (fm : funcmap) (target : list string)
    (data : string) (mode : Z) (w : world) : vres * world * trace :=
  match os_Remove target (fs w) with
  | OsErr ENOTEMPTY => (VErr (XOs ENOTEMPTY), w, [])
  | OsErr EEXIST => (VErr (XOs EEXIST), w, [])
  | OsErr ENOTDIR => (VErr (XOs ENOTDIR), w, [])
  | OsErr EISDIR => (VErr (XOs EISDIR), w, [])
  | r =>
      let fs0 := match r with OsOk fs' => fs' | OsErr _ => fs w end in
      match os_OpenFile target mode fs0 with
      | OsErr e => (VErr (XOs e), mkWorld fs0 (ps w), [])
      | OsOk fs1 =>
          match parse fm data with
          | PErr m => (VPanic m, mkWorld (prune target fs1) (ps w), [])
          | PUnsupported => (VUnsupported, mkWorld fs1 (ps w), [])
          | POk ns =>
              let '(out, err, s1) := exec mk fm ns (ps w) in
              let fs2 := prune target (fs_write target out fs1) in
              match err with
              | Some x => (VErr x, mkWorld fs2 s1, [])
              | None => (VOk, mkWorld fs2 s1, [(target, Some out)])
              end
          end
      end
  end.

(** The callback of [filepath.Walk] for one entry. *)
Definition visit (mk : missingkey) (fm : funcmap) (dirPrefix : list string)
    (e : sentry) (w : world) : vres * world * trace :=
  let oldName := rel_string (segs e) in
  match parse fm oldName with
  | PErr m => (VPanic m, w, [])
  | PUnsupported => (VUnsupported, w, [])
  | POk ns =>
      match exec mk fm ns (ps w) with
      | (_, Some err, s1) => (VErr err, mkWorld (fs w) s1, [])
      | (newName, None, s1) =>
          let target := join dirPrefix newName in
          let w1 := mkWorld (fs w) s1 in
          match kind e with
          | SDir =>
              match os_Mkdir target (fs w1) with
              | OsOk fs' => (VOk, mkWorld fs' s1, [(target, None)])
              | OsErr EEXIST => (VOk, w1, [(target, None)])
              | OsErr err => (VErr (XOs err), w1, [])
              end
          | SFile data mode => visit_file mk fm target data mode w1
          end
      end
  end.

(** [filepath.Walk]: entries in order; the first callback that does not
    return nil stops the walk. *)
Fixpoint walk (mk : missingkey) (fm : funcmap) (dirPrefix : list string)
    (src : list sentry) (w : world) : vres * world * trace :=
  match src with
  | [] => (VOk, w, [])
  | e :: rest =>
      match visit mk fm dirPrefix e w with
      | (VOk, w1, tr1) =>
          let '(r, w2, tr2) := walk mk fm dirPrefix rest w1 in (r, w2, app tr1 tr2)
      | (r, w1, tr1) => (r, w1, tr1)
      end
  end.

(** The names one iteration of [BindPrompts] adds to the function map: a
    group's key when the group is not empty, and its children's keys; any
    other key itself. *)
Definition set_names (parentKey : string) (v : jval) : list string :=
  match v with
  | JObj childMap =>
      ((if Nat.ltb 0 (length childMap) then [parentKey] else []) ++ map fst childMap)%list
  | _ => [parentKey]
  end.

Definition bound_names (ctx : context) : list string :=
  flat_map (fun kv => set_names (fst kv) (snd kv)) ctx.

(** [goodName] of text/template, which [Funcs] applies to every name of the
    map it is given ("function name %q is not a valid identifier"): the
    name is not empty, its first rune is a letter or [_], the others are
    letters, digits or [_]. Letters here are Unicode letters; only the
    ASCII bytes are classified: an ASCII byte is a rune of its own in any
    string, so a name fails surely when it is empty or holds an ASCII byte
    that is out of place, and passes surely when it is all ASCII and fails
    in no place. *)
Definition is_ascii_byte (a : ascii) : bool := (nat_of_ascii a <? 128)%nat.

Fixpoint has_bad_byte (s : string) : bool :=
  match s with
  | EmptyString => false
  | String a s' => (is_ascii_byte a && negb (is_letter a || is_digit a)) || has_bad_byte s'
  end.

Definition surely_bad_name (s : string) : bool :=
  match s with
  | EmptyString => true
  | String a s' => (is_ascii_byte a && negb (is_letter a)) || has_bad_byte s'
  end.

Fixpoint all_ascii (s : string) : bool :=
  match s with
  | EmptyString => true
  | String a s' => is_ascii_byte a && all_ascii s'
  end.

(** [Execute(dirPrefix)]: bind, then walk. [mk] is the package's [Options].
    The name template of every callback is built with
    [.Funcs(sprig.TxtFuncMap()).Funcs(FuncMap)] before anything else, and
    [Funcs] panics on a name that is not an identifier; so when a name the
    bindings added is not one, the first callback panics and nothing is
    created. Which bad name the message shows depends on Go's map iteration
    order; the model shows the first in context order. The helpers of the
    function map (sprig's and the package's own) have identifier names.
    A name with non-ASCII bytes and no misplaced ASCII byte depends on
    Unicode's letter classes, which are outside the model ([VUnsupported]).
    [visit] and [parse] model a callback after [Funcs] accepted the map. *)
Definition Execute (mk : missingkey) (t : dirTemplate) (dirPrefix : list string)
    (w : world) : vres * world * trace :=
  match Path t with
  | [] => (VOk, w, [])
  | _ :: _ =>
      match find surely_bad_name (bound_names (Context t)) with
      | Some n => (VPanic ("function name " ++ quote n ++ " is not a valid identifier"), w, [])
      | None =>
          if forallb all_ascii (bound_names (Context t))
          then walk mk (BindPrompts t) dirPrefix (Path t) w
          else (VUnsupported, w, [])
      end
  end.

(** ** Get: loading the context file *)

(** What opening and reading [project.json] under the template root gives. *)
Inductive fileread :=
| FRAbsent                  (* os.IsNotExist *)
| FRError (msg : string)    (* any other open or read error *)
| FRContent (buf : string).

Inductive gerr :=
| GOs (msg : string)
| GSyntax                   (* json: syntax error *)
| GType.                    (* json: cannot unmarshal a non-object into a map *)

(** The context-loading closure of [Get], for a JSON decoder [unmarshal]
    ([None]: syntax error). A nil map is an empty context. *)
Definition load_context (unmarshal : string -> option jval) (r : fileread)
  : context + gerr :=
  match r with
  | FRAbsent => inl []
  | FRError msg => inr (GOs msg)
  | FRContent buf =>
      match unmarshal buf with
      | None => inr GSyntax
      | Some JNull => inl []
      | Some (JObj m) => inl m
      | Some _ => inr GType
      end
  end.

(** [Get]: a context error returns no template. The metadata (birth time,
    repository, tag) is not modelled. *)
Definition Get (unmarshal : string -> option jval) (ctxfile : fileread)
    (tmplDir : list sentry) (funcs : funcmap) : option dirTemplate * option gerr :=
  match load_context unmarshal ctxfile with
  | inr e => (None, Some e)
  | inl ctxt => (Some (mkTemplate tmplDir ctxt funcs false), None)
  end.

(** A JSON decoder for examples: objects (a repeated key keeps its last
    value), arrays, strings with the short escapes, integers, [true],
    [false], [null]. Fractions, exponents and [\u] escapes are outside it. *)
Definition json_ws (a : ascii) : bool :=
  Ascii.eqb a " " || Ascii.eqb a "009"%char || Ascii.eqb a "010"%char
  || Ascii.eqb a "013"%char.

Fixpoint skip_ws (s : string) : string :=
  match s with
  | String a s' => if json_ws a then skip_ws s' else s
  | EmptyString => EmptyString
  end.

Fixpoint json_string (s acc : string) : option (string * string) :=
  match s with
  | EmptyString => None
  | String a s' =>
      if Ascii.eqb a "034"%char then Some (string_rev acc, s')
      else if Ascii.eqb a "\"%char then
        match s' with
        | String b s'' =>
            let esc :=
              if Ascii.eqb b "034"%char then Some b
              else if Ascii.eqb b "\"%char then Some b
              else if Ascii.eqb b "/"%char then Some b
              else if Ascii.eqb b "n"%char then Some "010"%char
              else if Ascii.eqb b "t"%char then Some "009"%char
              else if Ascii.eqb b "r"%char then Some "013"%char
              else if Ascii.eqb b "b"%char then Some "008"%char
              else if Ascii.eqb b "f"%char then Some "012"%char
              else None in
            match esc with
            | Some c => json_string s'' (String c acc)
            | None => None
            end
        | EmptyString => None
        end
      else if (nat_of_ascii a <? 32)%nat then None
      else json_string s' (String a acc)
  end.

Fixpoint json_digits (s : string) (n : Z) (seen : bool) : option (Z * string) :=
  match s with
  | String a s' =>
      if is_digit a then json_digits s' (10 * n + Z.of_nat (nat_of_ascii a - 48))%Z true
      else if Ascii.eqb a "."%char || Ascii.eqb a "e"%char || Ascii.eqb a "E"%char
      then None
      else if seen then Some (n, s) else None
  | EmptyString => if seen then Some (n, s) else None
  end.

Definition json_number (s : string) : option (jval * string) :=
  match s with
  | String "-" s' =>
      match json_digits s' 0 false with
      | Some (n, r) => Some (JNum (- n), r)
      | None => None
      end
  | _ => match json_digits s 0 false with
         | Some (n, r) => Some (JNum n, r)
         | None => None
         end
  end.

Fixpoint obj_put (k : string) (v : jval) (m : list (string * jval)) : list (string * jval) :=
  match m with
  | [] => [(k, v)]
  | (k', v') :: m' => if String.eqb k k' then (k, v) :: m' else (k', v') :: obj_put k v m'
  end.

Definition prefix_of (p s : string) : bool := String.prefix p s.

Fixpoint json_value (fuel : nat) (s : string) : option (jval * string) :=
  match fuel with
  | O => None
  | S f =>
      match skip_ws s with
      | String "{" r =>
          match skip_ws r with
          | String "}" r' => Some (JObj [], r')
          | _ => json_members f r []
          end
      | String "[" r =>
          match skip_ws r with
          | String "]" r' => Some (JList [], r')
          | _ => json_elems f r []
          end
      | String "034" r =>
          match json_string r EmptyString with
          | Some (str, r') => Some (JStr str, r')
          | None => None
          end
      | s' =>
          if prefix_of "true" s' then Some (JBool true, substring 4 (String.length s') s')
          else if prefix_of "false" s' then Some (JBool false, substring 5 (String.length s') s')
          else if prefix_of "null" s' then Some (JNull, substring 4 (String.length s') s')
          else json_number s'
      end
  end
with json_members (fuel : nat) (s : string) (acc : list (string * jval))
  : option (jval * string) :=
  match fuel with
  | O => None
  | S f =>
      match skip_ws s with
      | String "034" r =>
          match json_string r EmptyString with
          | Some (k, r1) =>
              match skip_ws r1 with
              | String ":" r2 =>
                  match json_value f r2 with
                  | Some (v, r3) =>
                      match skip_ws r3 with
                      | String "," r4 => json_members f r4 (obj_put k v acc)
                      | String "}" r4 => Some (JObj (obj_put k v acc), r4)
                      | _ => None
                      end
                  | None => None
                  end
              | _ => None
              end
          | None => None
          end
      | _ => None
      end
  end
with json_elems (fuel : nat) (s : string) (acc : list jval) : option (jval * string) :=
  match fuel with
  | O => None
  | S f =>
      match json_value f s with
      | Some (v, r) =>
          match skip_ws r with
          | String "," r' => json_elems f r' (app acc [v])
          | String "]" r' => Some (JList (app acc [v]), r')
          | _ => None
          end
      | None => None
      end
  end.

(** [json.Unmarshal] of a whole buffer: one value, then only white space. *)
Definition json_decode (buf : string) : option jval :=
  match json_value (S (String.length buf)) buf with
  | Some (v, r) => match skip_ws r with EmptyString => Some v | _ => None end
  | None => None
  end.

(** ** Definitions used by the statements *)

(** The names one context entry declares: its key and, for a group, the
    keys of its children. *)
Definition entry_names (k : string) (v : jval) : list string :=
  k :: match v with JObj m => map fst m | _ => [] end.

(** Every variable name of a context (depth at most 2). *)
Definition ctx_names (ctx : context) : list string :=
  flat_map (fun kv => entry_names (fst kv) (snd kv)) ctx.

(** [s'] keeps every cached prompt answer of [s]. *)
Definition memo_ext (s s' : pstate) : Prop :=
  forall id v, memo_lookup id (memo s) = Some v -> memo_lookup id (memo s') = Some v.

(** No child prompt of group [g] has been shown unless [g]'s advanced-mode
    prompt was answered true. *)
Definition gated (g : string) (s : pstate) : Prop :=
  forall c, In (PChild g c) (asked s) -> memo_lookup (PKey g) (memo s) = Some (JBool true).

(** The functions BindPrompts puts into the function map. *)
Inductive table_binding : binding -> Prop :=
| TBDefault v : table_binding (default_binding v)
| TBFalse : table_binding false_binding
| TBPrompt k v : table_binding (prompt_New (PKey k) v)
| TBChild k c cv :
    table_binding (child_binding (prompt_New (PKey k) (JBool false)) cv
                                 (prompt_New (PChild k c) cv)).

(** A template action starts somewhere in [s]. *)
Fixpoint has_delim (s : string) : bool :=
  match s with
  | String a s' =>
      match s' with
      | String b _ => (Ascii.eqb a "{"%char && Ascii.eqb b "{"%char) || has_delim s'
      | EmptyString => false
      end
  | EmptyString => false
  end.

Fixpoint has_slash (s : string) : bool :=
  match s with
  | String a s' => Ascii.eqb a "/"%char || has_slash s'
  | EmptyString => false
  end.

(** A path segment as [filepath.Rel] produces it. *)
Definition seg_ok (x : string) : Prop :=
  x <> EmptyString /\ x <> "." /\ x <> ".." /\ has_slash x = false.

(** A walk of a directory tree: the root, then every other entry once, after
    its parent directory. [dirs]/[seen]: directories/paths already walked. *)
Fixpoint src_wf (dirs seen : list (list string)) (src : list sentry) : Prop :=
  match src with
  | [] => True
  | e :: rest =>
      match segs e with
      | [] => kind e = SDir /\ src_wf dirs seen rest
      | q =>
          ~ In q seen /\ In (removelast q) dirs /\ Forall seg_ok q /\
          src_wf (match kind e with SDir => q :: dirs | SFile _ _ => dirs end)
                 (q :: seen) rest
      end
  end.

(** Neither the relative path nor the contents of an entry hold an action. *)
Definition plain_entry (e : sentry) : Prop :=
  has_delim (rel_string (segs e)) = false /\
  match kind e with SFile d _ => has_delim d = false | SDir => True end.

(** The characters of RE2's [\s]: space, tab, newline, form feed,
    carriage return. *)
Definition re2_space_chars : list ascii :=
  [" "%char; "009"%char; "010"%char; "012"%char; "013"%char].

(** What the destination holds for a source entry walked without template
    actions: a directory, or the file unless it is blank. *)
(** What a node holds, apart from a file's mode: whether it exists, and
    for a file its bytes. *)
Definition node_content (o : option fnode) : option (option string) :=
  match o with
  | None => None
  | Some FDir => Some None
  | Some (FFile d _) => Some (Some d)
  end.

Definition expected_node (e : sentry) : option fnode :=
  match kind e with
  | SDir => Some FDir
  | SFile d m => if isOnlyWhitespace d then None else Some (FFile d m)
  end.

(** After walking the entries [done] of a plain tree into [prefix]: [dirs] are the
    directories made, [seen] the paths walked. *)
Definition plain_inv (prefix : list string) (dirs seen : list (list string))
    (done : list sentry) (fs : fsys) : Prop :=
  In [] dirs /\
  (forall q, In q dirs -> In q seen) /\
  (forall q, In q dirs -> fs_lookup (prefix ++ q)%list fs = Some FDir) /\
  (forall p, fs_lookup p fs <> None -> exists q, In q seen /\ p = (prefix ++ q)%list) /\
  (forall q, In q seen -> q = [] \/ exists e, In e done /\ segs e = q) /\
  (forall e, In e done -> In (segs e) seen) /\
  (forall e, In e done -> fs_lookup (prefix ++ segs e)%list fs = expected_node e).

(** A function of the function map that neither reads nor changes the
    prompt state. *)
Definition prompt_free (b : binding) : Prop := exists o, forall s, b s = (o, s).

(** ** Concrete inputs *)

Definition ex_ctx : context :=
  [("name", JStr "app");
   ("db", JList [JStr "pg"; JStr "my"]);
   ("adv", JObj [("port", JNum 5432); ("tls", JList [JBool true; JBool false])])].

Definition ex_s0 : pstate := mkPState [] [] [].

(** A group whose child has a list of choices. *)
Definition ex_adv_ctx : context :=
  [("advanced", JObj [("db", JList [JStr "postgres"; JStr "mysql"])])].

(** A fresh destination directory [/dst]. *)
Definition ex_dst : list string := ["dst"].

Definition ex_w0 (s : pstate) : world := mkWorld [(ex_dst, FDir)] s.

Definition ex_root : sentry := mkSEntry [] SDir.

(** A template with a file that renders to a carriage return and one that
    renders to a form feed. *)
Definition ex_blank_src : list sentry :=
  [ex_root;
   mkSEntry ["hello.txt"] (SFile "Hello" 420%Z);
   mkSEntry ["cr.txt"] (SFile (String "013"%char EmptyString) 420%Z);
   mkSEntry ["ff.txt"] (SFile (String "012"%char EmptyString) 420%Z)].

Definition ex_run_blank : vres * world * trace :=
  Execute MKDefault (mkTemplate ex_blank_src [] fm_empty true) ex_dst (ex_w0 ex_s0).

(** A destination that already holds a longer file at [/dst/a.txt]. *)
Definition ex_w_old : world :=
  mkWorld [(["dst"; "a.txt"], FFile "old and longer content" 384%Z); (ex_dst, FDir)] ex_s0.

(** A plain tree holding an empty [.gitkeep] file. *)
Definition ex_keep_src : list sentry :=
  [ex_root; mkSEntry ["cmd"] SDir; mkSEntry ["cmd"; ".gitkeep"] (SFile EmptyString 420%Z)].

(** A plain tree: a directory with a file, and a file at the root. *)
Definition ex_plain_src : list sentry :=
  [ex_root; mkSEntry ["cmd"] SDir;
   mkSEntry ["cmd"; "main.go"] (SFile "package main" 420%Z);
   mkSEntry ["README.md"] (SFile "# app" 384%Z)].

(** A template tree with one file [greeting.txt] holding [data]. *)
Definition ex_greet_src (data : string) : list sentry :=
  [ex_root; mkSEntry ["greeting.txt"] (SFile data 420%Z)].

Definition ex_greet_ctx : context := [("name", JStr "World")].

(** The render of [Hello, {{.name}}!] with [name] bound to [World]. *)
Definition ex_run_dot (mk : missingkey) : vres * world * trace :=
  Execute mk (mkTemplate (ex_greet_src "Hello, {{.name}}!") ex_greet_ctx fm_empty true)
          ex_dst (ex_w0 ex_s0).

(** A context with empty lists of choices. *)
Definition ex_empty_ctx : context :=
  [("ports", JList []); ("adv", JObj [("hosts", JList [])])].

(** An interactive render of a file using a group and its child, where the
    user accepts the default of the advanced-mode prompt. *)
Definition ex_adv_src : list sentry :=
  [ex_root; mkSEntry ["db.txt"] (SFile "{{advanced}} {{db}}" 420%Z)].

Definition ex_run_adv : vres * world * trace :=
  Execute MKDefault (mkTemplate ex_adv_src ex_adv_ctx fm_empty false) ex_dst
          (ex_w0 (mkPState [] [Accept] [])).

(** ** Lemmas: the name check of [Execute] *)

Lemma letter_ascii a : is_letter a = true -> is_ascii_byte a = true.
Proof. intro H. destruct a as [[] [] [] [] [] [] [] []]; vm_compute in H |- *; congruence. Qed.

Lemma digit_ascii a : is_digit a = true -> is_ascii_byte a = true.
Proof. intro H. destruct a as [[] [] [] [] [] [] [] []]; vm_compute in H |- *; congruence. Qed.

Lemma ident_chars_good s : all_ident_chars s = true -> has_bad_byte s = false /\ all_ascii s = true.
Proof.
  induction s as [|a s IH]; simpl; [auto|]. intro H.
  apply andb_prop in H as [Ha Hs]. destruct (IH Hs) as [H1 H2]. rewrite H1, H2, Ha.
  apply Bool.orb_true_iff in Ha as [Ha|Ha].
  - rewrite (letter_ascii a Ha). auto.
  - rewrite (digit_ascii a Ha). auto.
Qed.

Lemma is_ident_good s : is_ident s = true -> surely_bad_name s = false /\ all_ascii s = true.
Proof.
  destruct s as [|a s]; simpl; [discriminate|]. intro H.
  apply andb_prop in H as [Ha Hs]. destruct (ident_chars_good s Hs) as [H1 H2].
  rewrite H1, H2, Ha, (letter_ascii a Ha). auto.
Qed.

(** When every name the bindings add is an identifier, [Execute] is the walk. *)
Lemma Execute_ident mk t dirPrefix w :
  forallb is_ident (bound_names (Context t)) = true ->
  Execute mk t dirPrefix w = walk mk (BindPrompts t) dirPrefix (Path t) w.
Proof.
  intro H. rewrite forallb_forall in H. unfold Execute. destruct (Path t) as [|e src]; [reflexivity|].
  destruct (find surely_bad_name (bound_names (Context t))) as [n|] eqn:E.
  - apply find_some in E as [Hin Hb]. destruct (is_ident_good n (H n Hin)). congruence.
  - replace (forallb all_ascii (bound_names (Context t))) with true; [reflexivity|].
    symmetry. apply forallb_forall. intros x Hx. apply is_ident_good. apply H. exact Hx.
Qed.

(** [Execute] is the walk, or stops before it with the world unchanged. *)
Lemma Execute_cases mk t dirPrefix w :
  Execute mk t dirPrefix w = walk mk (BindPrompts t) dirPrefix (Path t) w \/
  exists r, Execute mk t dirPrefix w = (r, w, []).
Proof.
  unfold Execute. destruct (Path t); [right; eauto|].
  destruct (find _ _); [right; eauto|]. destruct (forallb _ _); [left; reflexivity | right; eauto].
Qed.

Lemma Execute_ok mk t dirPrefix w w' tr :
  Execute mk t dirPrefix w = (VOk, w', tr) -> walk mk (BindPrompts t) dirPrefix (Path t) w = (VOk, w', tr).
Proof.
  unfold Execute. destruct (Path t); [intro H; exact H|].
  destruct (find _ _); [discriminate|]. destruct (forallb _ _); [auto | discriminate].
Qed.

(** ** Lemmas: the function map *)

Lemma fm_set_eq k b fm : fm_set k b fm k = Some b.
Proof. unfold fm_set. now rewrite String.eqb_refl. Qed.

Lemma fm_set_neq k b fm n : n <> k -> fm_set k b fm n = fm n.
Proof. intro H. unfold fm_set. destruct (String.eqb_spec n k); congruence. Qed.

Section FoldSet.
Variable f : string -> jval -> binding.

Lemma fold_set_other : forall l fm n, ~ In n (map fst l) ->
  fold_left (fun fm kv => let '(c, cv) := kv in fm_set c (f c cv) fm) l fm n = fm n.
Proof.
  induction l as [|[c cv] l IH]; intros fm n Hn; simpl in *; auto.
  rewrite IH by tauto. apply fm_set_neq. intuition.
Qed.

Lemma fold_set_in : forall l fm c cv, NoDup (map fst l) -> In (c, cv) l ->
  fold_left (fun fm kv => let '(c, cv) := kv in fm_set c (f c cv) fm) l fm c
  = Some (f c cv).
Proof.
  induction l as [|[c' cv'] l IH]; intros fm c cv Hnd Hin; simpl in *; [contradiction|].
  inversion Hnd; subst. destruct Hin as [Heq|Hin].
  - inversion Heq; subst. rewrite fold_set_other by assumption. apply fm_set_eq.
  - apply IH; auto.
Qed.

Lemma fold_set_some : forall l fm n, fm n <> None ->
  fold_left (fun fm kv => let '(c, cv) := kv in fm_set c (f c cv) fm) l fm n <> None.
Proof.
  induction l as [|[c cv] l IH]; intros fm n Hn; simpl; auto.
  apply IH. unfold fm_set. destruct (String.eqb n c); congruence.
Qed.

Lemma fold_set_some_in : forall l fm c cv, In (c, cv) l ->
  fold_left (fun fm kv => let '(c, cv) := kv in fm_set c (f c cv) fm) l fm c <> None.
Proof.
  induction l as [|[c' cv'] l IH]; intros fm c cv Hin; simpl in *; [contradiction|].
  destruct Hin as [Heq|Hin].
  - inversion Heq; subst. apply fold_set_some. rewrite fm_set_eq. discriminate.
  - eapply IH; eauto.
Qed.
End FoldSet.

Lemma nodup_app_disj {A} (l1 l2 : list A) x : NoDup (l1 ++ l2) -> In x l1 -> ~ In x l2.
Proof.
  induction l1 as [|y l1 IH]; simpl; intros Hnd Hin; [contradiction|].
  inversion Hnd as [|? ? Hy Hnd']; subst. destruct Hin as [->|Hin].
  - intro Hx. apply Hy. apply in_or_app; auto.
  - auto.
Qed.

(** Entry-level lookups. *)

Lemma hbd_other fm k v n : ~ In n (entry_names k v) -> handleBindDefaults fm k v n = fm n.
Proof.
  intro Hn. unfold entry_names in Hn. destruct v; simpl in *;
    try (apply fm_set_neq; intuition; fail).
  pose proof (fold_set_other (fun _ cv => default_binding cv)) as Hf; cbv beta in Hf.
  rewrite Hf by tauto.
  destruct (Nat.ltb 0 (length m)); auto. apply fm_set_neq. intuition.
Qed.

Lemma hbp_other fm k v n : ~ In n (entry_names k v) -> handleBindPrompts fm k v n = fm n.
Proof.
  intro Hn. unfold entry_names in Hn. destruct v; simpl in *;
    try (apply fm_set_neq; intuition; fail).
  pose proof (fold_set_other (fun c cv => child_binding (prompt_New (PKey k) (JBool false)) cv
                                             (prompt_New (PChild k c) cv))) as Hf; cbv beta in Hf.
  rewrite Hf by tauto.
  destruct (Nat.ltb 0 (length m)); auto. apply fm_set_neq. intuition.
Qed.

Lemma hbd_top fm k v : (forall m, v <> JObj m) ->
  handleBindDefaults fm k v k = Some (default_binding v).
Proof.
  intro Hv. destruct v; try apply fm_set_eq. exfalso; eapply Hv; eauto.
Qed.

Lemma hbp_top fm k v : (forall m, v <> JObj m) ->
  handleBindPrompts fm k v k = Some (prompt_New (PKey k) v).
Proof.
  intro Hv. destruct v; try apply fm_set_eq. exfalso; eapply Hv; eauto.
Qed.

Lemma hbd_gate fm k m : m <> [] -> ~ In k (map fst m) ->
  handleBindDefaults fm k (JObj m) k = Some false_binding.
Proof.
  intros Hm Hk. simpl.
  pose proof (fold_set_other (fun _ cv => default_binding cv)) as Hf; cbv beta in Hf.
  rewrite Hf by assumption.
  destruct m; [congruence|]. simpl. apply fm_set_eq.
Qed.

Lemma hbp_gate fm k m : m <> [] -> ~ In k (map fst m) ->
  handleBindPrompts fm k (JObj m) k = Some (prompt_New (PKey k) (JBool false)).
Proof.
  intros Hm Hk. simpl.
  pose proof (fold_set_other (fun c cv => child_binding (prompt_New (PKey k) (JBool false)) cv
                                             (prompt_New (PChild k c) cv))) as Hf; cbv beta in Hf.
  rewrite Hf by assumption.
  destruct m; [congruence|]. simpl. apply fm_set_eq.
Qed.

Lemma hbd_child fm k m c cv : NoDup (map fst m) -> In (c, cv) m ->
  handleBindDefaults fm k (JObj m) c = Some (default_binding cv).
Proof.
  intros Hnd Hin. simpl.
  exact (fold_set_in (fun _ cv => default_binding cv) m _ c cv Hnd Hin).
Qed.

Lemma hbp_child fm k m c cv : NoDup (map fst m) -> In (c, cv) m ->
  handleBindPrompts fm k (JObj m) c
  = Some (child_binding (prompt_New (PKey k) (JBool false)) cv (prompt_New (PChild k c) cv)).
Proof.
  intros Hnd Hin. simpl.
  exact (fold_set_in (fun c cv => child_binding (prompt_New (PKey k) (JBool false)) cv
                                     (prompt_New (PChild k c) cv)) m _ c cv Hnd Hin).
Qed.

(** Table-level lookups. *)

Lemma bind_key_other b fm k v n : ~ In n (entry_names k v) -> bind_key b fm k v n = fm n.
Proof. destruct b; [apply hbd_other | apply hbp_other]. Qed.

Lemma bind_fold_other b : forall ctx fm n, ~ In n (ctx_names ctx) ->
  fold_left (fun fm kv => let '(k, v) := kv in bind_key b fm k v) ctx fm n = fm n.
Proof.
  induction ctx as [|[k v] ctx IH]; intros fm n Hn; simpl; auto.
  change (ctx_names ((k, v) :: ctx)) with (entry_names k v ++ ctx_names ctx)%list in Hn.
  rewrite IH by (intro; apply Hn; apply in_or_app; auto).
  apply bind_key_other. intro; apply Hn; apply in_or_app; auto.
Qed.

Lemma bind_fold_at b ctx fm k v n :
  NoDup (ctx_names ctx) -> In (k, v) ctx -> In n (entry_names k v) ->
  exists fm', fold_left (fun fm kv => let '(k, v) := kv in bind_key b fm k v) ctx fm n
              = bind_key b fm' k v n.
Proof.
  intros Hnd Hin Hn. destruct (in_split _ _ Hin) as (pre & post & ->).
  eexists. rewrite fold_left_app. simpl. apply bind_fold_other.
  assert (Hnd' : NoDup (entry_names k v ++ ctx_names post)%list).
  { unfold ctx_names in Hnd. rewrite flat_map_app in Hnd.
    apply NoDup_app_remove_l in Hnd. exact Hnd. }
  eapply nodup_app_disj; eauto.
Qed.

Lemma entry_nodup ctx k v : NoDup (ctx_names ctx) -> In (k, v) ctx -> NoDup (entry_names k v).
Proof.
  intros Hnd Hin. destruct (in_split _ _ Hin) as (pre & post & ->).
  unfold ctx_names in Hnd. rewrite flat_map_app in Hnd.
  apply NoDup_app_remove_l in Hnd.
  change (NoDup (entry_names k v ++ ctx_names post)%list) in Hnd.
  eapply NoDup_app_remove_r; eauto.
Qed.

Lemma bp_at t k v n :
  NoDup (ctx_names (Context t)) -> In (k, v) (Context t) -> In n (entry_names k v) ->
  exists fm', BindPrompts t n = bind_key (ShouldUseDefaults t) fm' k v n.
Proof. apply bind_fold_at. Qed.

Section Table.
Variables (paths : list sentry) (ctx : context) (funcs : funcmap) (useDefaults : bool).
Hypothesis Hnd : NoDup (ctx_names ctx).
Let t := mkTemplate paths ctx funcs useDefaults.

Lemma table_top k v : In (k, v) ctx -> (forall m, v <> JObj m) ->
  BindPrompts t k = Some (if useDefaults then default_binding v else prompt_New (PKey k) v).
Proof.
  intros Hin Hv. destruct (bp_at t k v k Hnd Hin (or_introl eq_refl)) as [fm' ->].
  unfold bind_key; simpl. destruct useDefaults; [apply hbd_top | apply hbp_top]; auto.
Qed.

Lemma table_gate k m : In (k, JObj m) ctx -> m <> [] ->
  BindPrompts t k
  = Some (if useDefaults then false_binding else prompt_New (PKey k) (JBool false)).
Proof.
  intros Hin Hm. destruct (bp_at t k (JObj m) k Hnd Hin (or_introl eq_refl)) as [fm' ->].
  pose proof (entry_nodup ctx k (JObj m) Hnd Hin) as Hk. inversion Hk; subst.
  unfold bind_key; simpl. destruct useDefaults; [apply hbd_gate | apply hbp_gate]; auto.
Qed.

Lemma table_child k m c cv : In (k, JObj m) ctx -> In (c, cv) m ->
  BindPrompts t c
  = Some (if useDefaults then default_binding cv
          else child_binding (prompt_New (PKey k) (JBool false)) cv
                             (prompt_New (PChild k c) cv)).
Proof.
  intros Hin Hc.
  assert (Hn : In c (entry_names k (JObj m))).
  { right. change c with (fst (c, cv)). apply in_map; auto. }
  destruct (bp_at t k (JObj m) c Hnd Hin Hn) as [fm' ->].
  pose proof (entry_nodup ctx k (JObj m) Hnd Hin) as Hk. inversion Hk; subst.
  unfold bind_key; simpl. destruct useDefaults; [apply hbd_child | apply hbp_child]; auto.
Qed.
End Table.

(** ** C1 *)

(** C1. In defaults-only mode the Binding Table maps a top-level scalar to
    the scalar, a top-level list to its first element, a (non-empty) group's
    gate to false and each group child to its default (the first element of
    a list); invoking these never touches the prompt state. *)
Theorem defaults_mode_binds_declared_defaults : forall paths ctx funcs,
  NoDup (ctx_names ctx) ->
  let fm := BindPrompts (mkTemplate paths ctx funcs true) in
  (forall k v s, In (k, v) ctx -> (forall m, v <> JObj m) -> (forall l, v <> JList l) ->
     exists b, fm k = Some b /\ b s = (Ret v, s)) /\
  (forall k x xs s, In (k, JList (x :: xs)) ctx ->
     exists b, fm k = Some b /\ b s = (Ret x, s)) /\
  (forall k m s, In (k, JObj m) ctx -> m <> [] ->
     exists b, fm k = Some b /\ b s = (Ret (JBool false), s)) /\
  (forall k m c cv s, In (k, JObj m) ctx -> In (c, cv) m -> (forall l, cv <> JList l) ->
     exists b, fm c = Some b /\ b s = (Ret cv, s)) /\
  (forall k m c x xs s, In (k, JObj m) ctx -> In (c, JList (x :: xs)) m ->
     exists b, fm c = Some b /\ b s = (Ret x, s)).
Proof.
  intros paths ctx funcs Hnd fm. subst fm. repeat split.
  - intros k v s Hin Hm Hl. eexists. split.
    + apply (table_top paths ctx funcs true Hnd k v Hin Hm).
    + unfold default_binding, first_default. destruct v; auto. exfalso; eapply Hl; eauto.
  - intros k x xs s Hin. eexists. split.
    + apply (table_top paths ctx funcs true Hnd k _ Hin). discriminate.
    + reflexivity.
  - intros k m s Hin Hm. eexists. split.
    + apply (table_gate paths ctx funcs true Hnd k m Hin Hm).
    + reflexivity.
  - intros k m c cv s Hin Hc Hl. eexists. split.
    + apply (table_child paths ctx funcs true Hnd k m c cv Hin Hc).
    + unfold default_binding, first_default. destruct cv; auto. exfalso; eapply Hl; eauto.
  - intros k m c x xs s Hin Hc. eexists. split.
    + apply (table_child paths ctx funcs true Hnd k m c _ Hin Hc).
    + reflexivity.
Qed.

(** ** C10 *)

(** C10. In defaults-only mode a binding (top-level or group child) whose
    default is an empty list panics when invoked: the first-element
    extraction indexes the empty slice. *)
Theorem defaults_mode_empty_list_panics : forall paths ctx funcs,
  NoDup (ctx_names ctx) ->
  let fm := BindPrompts (mkTemplate paths ctx funcs true) in
  (forall k s, In (k, JList []) ctx ->
     exists b msg, fm k = Some b /\ b s = (Panic msg, s)) /\
  (forall k m c s, In (k, JObj m) ctx -> In (c, JList []) m ->
     exists b msg, fm c = Some b /\ b s = (Panic msg, s)).
Proof.
  intros paths ctx funcs Hnd fm. subst fm. split.
  - intros k s Hin. do 2 eexists. split.
    + apply (table_top paths ctx funcs true Hnd k _ Hin). discriminate.
    + reflexivity.
  - intros k m c s Hin Hc. do 2 eexists. split.
    + apply (table_child paths ctx funcs true Hnd k m c _ Hin Hc).
    + reflexivity.
Qed.

(** ** C2 *)

(** C2 (at a concrete input). Interactive mode, context
    [{"advanced": {"db": ["postgres", "mysql"]}}]. When the user declines the
    advanced settings (accepts the default "no"), invoking [db] returns the
    whole list, and [{{db}}] renders as [[postgres mysql]]; when the user
    accepts them, [db] is resolved through its own prompt. *)
Theorem interactive_declined_child_returns_whole_list :
  let fm := BindPrompts (mkTemplate [] ex_adv_ctx fm_empty false) in
  (match fm "db" with
   | Some b => b (mkPState [] [Accept] [])
   | None => (Abort, ex_s0)
   end
   = (Ret (JList [JStr "postgres"; JStr "mysql"]),
      mkPState [(PKey "advanced", JBool false)] [] [PKey "advanced"])) /\
  fst (fst (exec MKInvalid fm [TCall "db"] (mkPState [] [Accept] [])))
    = "[postgres mysql]" /\
  (match fm "db" with
   | Some b => b (mkPState [] [Answer (JBool true); Accept] [])
   | None => (Abort, ex_s0)
   end
   = (Ret (JStr "postgres"),
      mkPState [(PChild "advanced" "db", JStr "postgres"); (PKey "advanced", JBool true)] []
               [PKey "advanced"; PChild "advanced" "db"])).
Proof. repeat split; vm_compute; reflexivity. Qed.

(** ** Lemmas: prompts and the prompt state *)

Lemma pid_eqb_true a b : pid_eqb a b = true -> a = b.
Proof.
  destruct a, b; simpl; try discriminate.
  - intro H. apply String.eqb_eq in H. congruence.
  - intro H. apply andb_prop in H as [H1 H2].
    apply String.eqb_eq in H1, H2. congruence.
Qed.

Lemma pid_eqb_refl a : pid_eqb a a = true.
Proof. destruct a; simpl; rewrite ?String.eqb_refl; reflexivity. Qed.

Lemma memo_ext_refl s : memo_ext s s.
Proof. unfold memo_ext; auto. Qed.

Lemma memo_ext_trans s1 s2 s3 : memo_ext s1 s2 -> memo_ext s2 s3 -> memo_ext s1 s3.
Proof. unfold memo_ext; auto. Qed.

Ltac inv_pair :=
  match goal with H : (_, _) = (_, _) |- _ => inversion H; subst; clear H end.

(** A prompt that answers leaves the answer in its cache and only adds
    to the cache. *)
Lemma prompt_New_ext id d s o s' : prompt_New id d s = (o, s') -> memo_ext s s'.
Proof.
  unfold prompt_New, memo_ext. intro H.
  destruct (memo_lookup id (memo s)) eqn:E; [inv_pair; auto|].
  destruct (inputs s) as [|r rest]; inv_pair; auto.
  intros id' v Hv. simpl. destruct (pid_eqb id id') eqn:Eq; auto.
  apply pid_eqb_true in Eq; subst. congruence.
Qed.

Lemma prompt_New_ret id d s v s' :
  prompt_New id d s = (Ret v, s') -> memo_lookup id (memo s') = Some v.
Proof.
  unfold prompt_New. intro H.
  destruct (memo_lookup id (memo s)) eqn:E; [inv_pair; auto|].
  destruct (inputs s) as [|r rest]; inv_pair; simpl. rewrite pid_eqb_refl. reflexivity.
Qed.

Lemma prompt_New_memo id d s v :
  memo_lookup id (memo s) = Some v -> prompt_New id d s = (Ret v, s).
Proof. unfold prompt_New. intros ->. reflexivity. Qed.

Lemma table_binding_ext b : table_binding b ->
  forall s o s', b s = (o, s') -> memo_ext s s'.
Proof.
  intros Hb s o s' H. destruct Hb.
  - unfold default_binding in H; inv_pair; apply memo_ext_refl.
  - unfold false_binding in H; inv_pair; apply memo_ext_refl.
  - eapply prompt_New_ext; eauto.
  - unfold child_binding in H.
    destruct (prompt_New (PKey k) (JBool false) s) as [o1 s1] eqn:G.
    apply prompt_New_ext in G.
    destruct o1 as [[| [] | | | |] | |]; try (inv_pair; assumption).
    eapply memo_ext_trans; [exact G|]. eapply prompt_New_ext; eauto.
Qed.

(** Once a binding of the table has returned [v], it returns [v] again,
    without asking, from any later state. *)
Lemma table_binding_stable b : table_binding b ->
  forall s v s1, b s = (Ret v, s1) -> forall s2, memo_ext s1 s2 -> b s2 = (Ret v, s2).
Proof.
  intros Hb s v s1 H s2 Hext. destruct Hb.
  - unfold default_binding in *. inv_pair. rewrite H1. reflexivity.
  - unfold false_binding in *. inv_pair. reflexivity.
  - apply prompt_New_ret in H. apply prompt_New_memo. auto.
  - unfold child_binding in *.
    destruct (prompt_New (PKey k) (JBool false) s) as [o1 sa] eqn:G.
    destruct o1 as [[| [] | | | |] | |]; try discriminate.
    + (* advanced settings accepted *)
      pose proof (prompt_New_ret _ _ _ _ _ G) as Hg.
      pose proof (prompt_New_ext _ _ _ _ _ H) as Hx.
      apply prompt_New_ret in H.
      rewrite (prompt_New_memo (PKey k) (JBool false) s2 (JBool true)) by auto.
      apply prompt_New_memo. auto.
    + (* declined *)
      inv_pair. pose proof (prompt_New_ret _ _ _ _ _ G) as Hg.
      rewrite (prompt_New_memo (PKey k) (JBool false) s2 (JBool false)) by auto.
      reflexivity.
Qed.

Lemma prompt_New_gated g id d s o s' :
  (forall g' c, id = PChild g' c -> memo_lookup (PKey g') (memo s) = Some (JBool true)) ->
  gated g s -> prompt_New id d s = (o, s') -> gated g s'.
Proof.
  intros Hid Hg H. unfold prompt_New in H.
  destruct (memo_lookup id (memo s)) eqn:E; [inv_pair; auto|].
  destruct (inputs s) as [|r rest]; inv_pair; auto.
  intros c Hc. simpl in Hc |- *. apply in_app_or in Hc as [Hc|[Hc|[]]].
  - specialize (Hg c Hc). destruct (pid_eqb id (PKey g)) eqn:Eq; auto.
    apply pid_eqb_true in Eq; subst. congruence.
  - subst id. specialize (Hid g c eq_refl). simpl. exact Hid.
Qed.

Lemma table_binding_gated g b : table_binding b ->
  forall s o s', gated g s -> b s = (o, s') -> gated g s'.
Proof.
  intros Hb s o s' Hg H. destruct Hb.
  - unfold default_binding in H; inv_pair; auto.
  - unfold false_binding in H; inv_pair; auto.
  - eapply prompt_New_gated; eauto. discriminate.
  - unfold child_binding in H.
    destruct (prompt_New (PKey k) (JBool false) s) as [o1 s1] eqn:G.
    assert (Hg1 : gated g s1) by (eapply prompt_New_gated; eauto; discriminate).
    destruct o1 as [[| [] | | | |] | |]; try (inv_pair; assumption).
    apply prompt_New_ret in G.
    eapply prompt_New_gated; [| exact Hg1 | exact H].
    intros g' c' Heq. inversion Heq; subst. exact G.
Qed.

(** ** Lemmas: every function BindPrompts adds is a table binding *)

Lemma fm_set_shape (P : binding -> Prop) k b fm :
  P b -> (forall n b', fm n = Some b' -> P b') ->
  forall n b', fm_set k b fm n = Some b' -> P b'.
Proof.
  intros Hb Hfm n b'. unfold fm_set. destruct (String.eqb n k); intro H.
  - inversion H; subst; exact Hb.
  - exact (Hfm n b' H).
Qed.

Lemma fold_set_shape (f : string -> jval -> binding) (P : binding -> Prop) :
  (forall c cv, P (f c cv)) ->
  forall l fm, (forall n b, fm n = Some b -> P b) ->
  forall n b, fold_left (fun fm kv => let '(c, cv) := kv in fm_set c (f c cv) fm) l fm n
              = Some b -> P b.
Proof.
  intros Hf. induction l as [|[c cv] l IH]; intros fm Hfm; simpl; auto.
  apply IH. apply fm_set_shape; auto.
Qed.

Lemma bind_key_shape u fm k v :
  (forall n b, fm n = Some b -> table_binding b) ->
  forall n b, bind_key u fm k v n = Some b -> table_binding b.
Proof.
  intros Hfm. unfold bind_key. destruct u, v; simpl;
    try (apply fm_set_shape; [constructor | exact Hfm]).
  - pose proof (fold_set_shape (fun _ cv => default_binding cv) table_binding) as Hf.
    cbv beta in Hf. apply Hf; [intros; constructor|].
    destruct (Nat.ltb 0 (length m)); [apply fm_set_shape; [constructor|] |]; exact Hfm.
  - pose proof (fold_set_shape
                  (fun c cv => child_binding (prompt_New (PKey k) (JBool false)) cv
                                             (prompt_New (PChild k c) cv)) table_binding) as Hf.
    cbv beta in Hf. apply Hf; [intros; constructor|].
    destruct (Nat.ltb 0 (length m)); [apply fm_set_shape; [constructor|] |]; exact Hfm.
Qed.

Lemma bind_prompts_shape t :
  (forall n b, FuncMap t n = Some b -> table_binding b) ->
  forall n b, BindPrompts t n = Some b -> table_binding b.
Proof.
  unfold BindPrompts. generalize (FuncMap t) as fm.
  induction (Context t) as [|[k v] ctx IH]; intros fm Hfm; simpl; auto.
  apply IH. apply bind_key_shape. exact Hfm.
Qed.

Lemma bind_prompts_empty_shape paths ctx u :
  forall n b, BindPrompts (mkTemplate paths ctx fm_empty u) n = Some b -> table_binding b.
Proof. apply bind_prompts_shape. simpl. discriminate. Qed.

(** ** Lemmas: what a render does to the prompt state *)

Ltac split_matches H :=
  repeat match type of H with
  | context [match ?x with _ => _ end] => let E := fresh "E" in destruct x eqn:E
  end.

Section Preserve.
Variable fm : funcmap.
Variable P : pstate -> Prop.
Hypothesis HP : forall n b s o s', fm n = Some b -> b s = (o, s') -> P s -> P s'.

Lemma exec_node_pres mk nd s out e s' : exec_node mk fm nd s = (out, e, s') -> P s -> P s'.
Proof.
  intros H Hs. unfold exec_node in H. split_matches H; inv_pair; eauto.
Qed.

Lemma exec_pres mk : forall ns s out e s', exec mk fm ns s = (out, e, s') -> P s -> P s'.
Proof.
  induction ns as [|nd ns IH]; simpl; intros s out e s' H Hs; [inv_pair; auto|].
  destruct (exec_node mk fm nd s) as [[o1 e1] s1] eqn:E1.
  pose proof (exec_node_pres _ _ _ _ _ _ E1 Hs) as Hs1.
  destruct e1; [inv_pair; auto|].
  destruct (exec mk fm ns s1) as [[o2 e2] s2] eqn:E2. inv_pair. eauto.
Qed.

Lemma visit_file_pres mk target data mode w r w' tr :
  visit_file mk fm target data mode w = (r, w', tr) -> P (ps w) -> P (ps w').
Proof.
  intros H Hs. unfold visit_file in H. split_matches H; inv_pair; simpl; auto;
    eapply exec_pres; eauto.
Qed.

Lemma visit_pres mk prefix e w r w' tr :
  visit mk fm prefix e w = (r, w', tr) -> P (ps w) -> P (ps w').
Proof.
  intros H Hs. unfold visit in H.
  destruct (parse fm (rel_string (segs e))) as [ns| |]; try (inv_pair; auto; fail).
  destruct (exec mk fm ns (ps w)) as [[newName err] s1] eqn:E.
  pose proof (exec_pres _ _ _ _ _ _ E Hs) as Hs1.
  destruct err; [inv_pair; auto|].
  destruct (kind e) as [|data mode].
  - split_matches H; inv_pair; auto.
  - eapply visit_file_pres; [exact H|]. exact Hs1.
Qed.

Lemma walk_pres mk prefix : forall src w r w' tr,
  walk mk fm prefix src w = (r, w', tr) -> P (ps w) -> P (ps w').
Proof.
  induction src as [|e src IH]; simpl; intros w r w' tr H Hs; [inv_pair; auto|].
  destruct (visit mk fm prefix e w) as [[r1 w1] tr1] eqn:E.
  pose proof (visit_pres _ _ _ _ _ _ _ E Hs) as Hs1.
  destruct r1; try (inv_pair; auto; fail).
  destruct (walk mk fm prefix src w1) as [[r2 w2] tr2] eqn:E2. inv_pair. eauto.
Qed.
End Preserve.

(** ** C7 *)

(** C7. Interactive mode: at the end of a render (finished or stopped),
    for every group whose advanced-mode prompt did not resolve to true, no
    prompt of any of its children was ever shown. *)
Theorem declined_group_children_never_prompted :
  forall mk paths ctx prefix w r w' tr,
  asked (ps w) = [] ->
  Execute mk (mkTemplate paths ctx fm_empty false) prefix w = (r, w', tr) ->
  forall g, memo_lookup (PKey g) (memo (ps w')) <> Some (JBool true) ->
  forall c, ~ In (PChild g c) (asked (ps w')).
Proof.
  intros mk paths ctx prefix w r w' tr Ha HE g Hg c Hc.
  assert (Hgated : gated g (ps w')).
  { destruct (Execute_cases mk (mkTemplate paths ctx fm_empty false) prefix w) as [E | [r0 E]];
      rewrite E in HE.
    - eapply walk_pres; [| exact HE |].
      + intros n b s o s' Hb Hrun Hs. eapply table_binding_gated; eauto.
        eapply bind_prompts_empty_shape; eauto.
      + intros c' Hc'. rewrite Ha in Hc'. destruct Hc'.
    - injection HE as _ <- _. intros c' Hc'. rewrite Ha in Hc'. destruct Hc'. }
  apply Hg. apply (Hgated c Hc).
Qed.

(** ** C8 *)

Lemma fm_set_some k b fm n : fm n <> None -> fm_set k b fm n <> None.
Proof. unfold fm_set. destruct (String.eqb n k); congruence. Qed.

Lemma bind_key_some u fm k v n : fm n <> None -> bind_key u fm k v n <> None.
Proof.
  intro Hn. unfold bind_key. destruct u, v; simpl; try (apply fm_set_some; exact Hn).
  - pose proof (fold_set_some (fun _ cv => default_binding cv)) as Hf. cbv beta in Hf.
    apply Hf. destruct (Nat.ltb 0 (length m)); [apply fm_set_some|]; exact Hn.
  - pose proof (fold_set_some (fun c cv => child_binding (prompt_New (PKey k) (JBool false)) cv
                                             (prompt_New (PChild k c) cv))) as Hf.
    cbv beta in Hf. apply Hf. destruct (Nat.ltb 0 (length m)); [apply fm_set_some|]; exact Hn.
Qed.

Lemma bind_fold_some u : forall ctx fm n, fm n <> None ->
  fold_left (fun fm kv => let '(k, v) := kv in bind_key u fm k v) ctx fm n <> None.
Proof.
  induction ctx as [|[k v] ctx IH]; intros fm n Hn; simpl; auto.
  apply IH. apply bind_key_some. exact Hn.
Qed.

Lemma bind_key_self u fm k v : v <> JObj [] -> bind_key u fm k v k <> None.
Proof.
  intro Hv. unfold bind_key. destruct u, v; simpl; try (rewrite fm_set_eq; discriminate).
  - destruct m as [|kv m]; [congruence|].
    pose proof (fold_set_some (fun _ cv => default_binding cv)) as Hf. cbv beta in Hf.
    apply Hf. simpl. rewrite fm_set_eq. discriminate.
  - destruct m as [|kv m]; [congruence|].
    pose proof (fold_set_some (fun c cv => child_binding (prompt_New (PKey k) (JBool false)) cv
                                             (prompt_New (PChild k c) cv))) as Hf.
    cbv beta in Hf. apply Hf. simpl. rewrite fm_set_eq. discriminate.
Qed.

Lemma bind_key_child u fm k m c cv : In (c, cv) m -> bind_key u fm k (JObj m) c <> None.
Proof.
  intro Hin. unfold bind_key. destruct u; simpl.
  - exact (fold_set_some_in (fun _ cv => default_binding cv) m _ c cv Hin).
  - exact (fold_set_some_in (fun c cv => child_binding (prompt_New (PKey k) (JBool false)) cv
                                            (prompt_New (PChild k c) cv)) m _ c cv Hin).
Qed.

Lemma bind_key_sets u fm k v n : In n (set_names k v) -> bind_key u fm k v n <> None.
Proof.
  intro Hn. destruct v as [| | | | |m]; simpl in Hn;
    try (destruct Hn as [<-|[]]; apply bind_key_self; discriminate).
  apply in_app_or in Hn as [Hn|Hn].
  - destruct (Nat.ltb 0 (length m)) eqn:El; [|destruct Hn].
    destruct Hn as [<-|[]]. apply bind_key_self. destruct m; [discriminate | congruence].
  - apply in_map_iff in Hn as ([c cv] & <- & Hc). eapply bind_key_child. exact Hc.
Qed.

Lemma bind_key_none u fm k v n : fm n = None -> ~ In n (set_names k v) -> bind_key u fm k v n = None.
Proof.
  intros Hn Hs. unfold bind_key.
  assert (Hset : forall b fm', fm' n = None -> n <> k -> fm_set k b fm' n = None).
  { intros b fm' H1 H2. unfold fm_set. destruct (String.eqb_spec n k); [congruence | exact H1]. }
  destruct v as [| | | | |m]; simpl in Hs;
    try (destruct u; simpl; apply Hset; [exact Hn | intros ->; apply Hs; left; reflexivity | exact Hn |
                                          intros ->; apply Hs; left; reflexivity]).
  assert (Hc : ~ In n (map fst m)) by (intro H; apply Hs; apply in_or_app; right; exact H).
  assert (H1 : (if Nat.ltb 0 (length m) then fm_set k false_binding fm else fm) n = None /\
               (if Nat.ltb 0 (length m) then fm_set k (prompt_New (PKey k) (JBool false)) fm else fm) n
                 = None).
  { destruct (Nat.ltb 0 (length m)); [|auto].
    split; apply Hset; try exact Hn; intros ->; apply Hs; left; reflexivity. }
  destruct u; simpl.
  - pose proof (fold_set_other (fun _ cv => default_binding cv)) as Hf. cbv beta in Hf.
    rewrite Hf by exact Hc. apply H1.
  - pose proof (fold_set_other (fun c cv => child_binding (prompt_New (PKey k) (JBool false)) cv
                                               (prompt_New (PChild k c) cv))) as Hf.
    cbv beta in Hf. rewrite Hf by exact Hc. apply H1.
Qed.

Lemma bind_fold_iff u : forall ctx fm n,
  fold_left (fun fm kv => let '(k, v) := kv in bind_key u fm k v) ctx fm n <> None <->
  In n (bound_names ctx) \/ fm n <> None.
Proof.
  induction ctx as [|[k v] ctx IH]; intros fm n.
  - simpl. tauto.
  - change (bound_names ((k, v) :: ctx)) with (set_names k v ++ bound_names ctx)%list.
    cbn [fold_left]. rewrite IH, in_app_iff. split.
    + intros [H|H]; [left; right; exact H|].
      destruct (in_dec string_dec n (set_names k v)) as [Hi|Hi]; [left; left; exact Hi|].
      right. intro Hn. apply H. apply bind_key_none; assumption.
    + intros [[H|H]|H].
      * right. apply bind_key_sets. exact H.
      * left. exact H.
      * right. apply bind_key_some. exact H.
Qed.

(** The key of an empty group gets no binding, in either mode. *)
Lemma empty_group_key_unbound :
  BindPrompts (mkTemplate [] [("advanced", JObj [])] fm_empty true) "advanced" = None /\
  BindPrompts (mkTemplate [] [("advanced", JObj [])] fm_empty false) "advanced" = None /\
  (exists m, parse (BindPrompts (mkTemplate [] [("advanced", JObj [])] fm_empty true))
                   "{{advanced}}" = PErr m).
Proof. split; [|split]; [reflexivity | reflexivity | eexists; reflexivity]. Qed.

(** C8 (amended). Every top-level key, except one whose value is an empty
    group, and every group child gets a binding; a binding that has returned
    a value returns that value again from any later state of the render
    (which only adds to the prompt cache). Starting from an empty function
    map, the names bound are exactly those some context entry sets, so the
    key of an empty group is unbound unless another entry sets that name. *)
Theorem bindings_cover_and_memoize : forall paths ctx u,
  let fm := BindPrompts (mkTemplate paths ctx fm_empty u) in
  (forall k v, In (k, v) ctx -> v <> JObj [] -> fm k <> None) /\
  (forall k m c cv, In (k, JObj m) ctx -> In (c, cv) m -> fm c <> None) /\
  (forall n b s v s1 s2, fm n = Some b -> b s = (Ret v, s1) -> memo_ext s1 s2 ->
     b s2 = (Ret v, s2)) /\
  (forall mk prefix src w r w' tr, walk mk fm prefix src w = (r, w', tr) ->
     memo_ext (ps w) (ps w')) /\
  (forall n, fm n <> None <-> In n (bound_names ctx)).
Proof.
  intros paths ctx u fm. subst fm. repeat split.
  - intros k v Hin Hv. unfold BindPrompts; simpl.
    destruct (in_split _ _ Hin) as (pre & post & ->). rewrite fold_left_app. simpl.
    apply bind_fold_some. apply bind_key_self. exact Hv.
  - intros k m c cv Hin Hc. unfold BindPrompts; simpl.
    destruct (in_split _ _ Hin) as (pre & post & ->). rewrite fold_left_app. simpl.
    apply bind_fold_some. apply bind_key_child with (cv := cv). exact Hc.
  - intros n b s v s1 s2 Hb Hrun Hext.
    eapply table_binding_stable; eauto. eapply bind_prompts_empty_shape; eauto.
  - intros mk prefix src w r w' tr H.
    eapply (walk_pres _ (memo_ext (ps w))); [| exact H | apply memo_ext_refl].
    intros n b s o s' Hb Hrun Hs. eapply memo_ext_trans; [exact Hs|].
    eapply table_binding_ext; eauto. eapply bind_prompts_empty_shape; eauto.
  - intro Hn. unfold BindPrompts in Hn; simpl in Hn.
    apply bind_fold_iff in Hn as [Hn|Hn]; [exact Hn | exfalso; apply Hn; reflexivity].
  - intro Hn. unfold BindPrompts; simpl. apply bind_fold_iff. left. exact Hn.
Qed.

(** ** Lemmas: strings and paths *)

Lemma str_app_nil_r (s : string) : s ++ EmptyString = s.
Proof. induction s as [|a s IH]; simpl; [reflexivity | rewrite IH; reflexivity]. Qed.

Lemma string_rev_app_twice s : forall acc acc',
  string_rev_app (string_rev_app s acc) acc' = string_rev_app acc (s ++ acc').
Proof.
  induction s as [|a s IH]; intros acc acc'; simpl; [reflexivity|].
  rewrite IH. reflexivity.
Qed.

Lemma string_rev_involutive s : string_rev (string_rev s) = s.
Proof.
  unfold string_rev. rewrite string_rev_app_twice. simpl. apply str_app_nil_r.
Qed.

Lemma string_rev_app_nonempty s : forall a acc, string_rev_app s (String a acc) <> EmptyString.
Proof.
  induction s as [|b s IH]; intros a acc; simpl; [discriminate | apply IH].
Qed.

Lemma lex_plain s : forall cur, has_delim s = false ->
  lex s false cur = Some (flush_text (string_rev_app s cur)).
Proof.
  induction s as [|a s IH]; intros cur Hd; [reflexivity|].
  destruct s as [|b s''].
  - reflexivity.
  - simpl in Hd. apply Bool.orb_false_iff in Hd as [Hab Hd].
    change (lex (String a (String b s'')) false cur)
      with (if Ascii.eqb a "{"%char && Ascii.eqb b "{"%char
            then option_map (app (flush_text cur)) (lex s'' true EmptyString)
            else lex (String b s'') false (String a cur)).
    rewrite Hab. apply IH. exact Hd.
Qed.

(** A text without an action parses to itself. *)
Lemma parse_plain fm s : has_delim s = false ->
  parse fm s = POk (match s with EmptyString => [] | _ => [TText s] end).
Proof.
  intro Hd. unfold parse. rewrite (lex_plain s EmptyString Hd).
  destruct s as [|a s]; [reflexivity|].
  change (string_rev_app (String a s) EmptyString) with (string_rev (String a s)).
  assert (Hne : string_rev (String a s) <> EmptyString)
    by exact (string_rev_app_nonempty s a EmptyString).
  pose proof (string_rev_involutive (String a s)) as Hi.
  destruct (string_rev (String a s)) as [|b r]; [congruence|].
  cbn [flush_text parse_tokens]. rewrite Hi. reflexivity.
Qed.

(** ... and renders to itself, leaving the prompt state alone. *)
Lemma render_plain mk fm s st : has_delim s = false ->
  exists ns, parse fm s = POk ns /\ exec mk fm ns st = (s, None, st).
Proof.
  intro Hd. rewrite (parse_plain fm s Hd). eexists; split; [reflexivity|].
  destruct s as [|a s]; [reflexivity|]. simpl. rewrite str_app_nil_r. reflexivity.
Qed.

Lemma split_slash_aux_app x : forall rest cur, has_slash x = false ->
  split_slash_aux (x ++ rest) cur = split_slash_aux rest (string_rev_app x cur).
Proof.
  induction x as [|a x IH]; intros rest cur Hx; [reflexivity|].
  simpl in Hx. apply Bool.orb_false_iff in Hx as [Ha Hx].
  simpl. rewrite Ha. apply IH. exact Hx.
Qed.

Lemma split_concat q : q <> [] -> Forall (fun x => has_slash x = false) q ->
  split_slash (String.concat "/" q) = q.
Proof.
  unfold split_slash. induction q as [|x q IH]; intros Hq Hs; [congruence|].
  inversion Hs as [|? ? Hx Hs']; subst.
  destruct q as [|y q].
  - change (String.concat "/" [x]) with x.
    transitivity (split_slash_aux (x ++ EmptyString) EmptyString);
      [rewrite str_app_nil_r; reflexivity|].
    rewrite split_slash_aux_app by exact Hx. cbn [split_slash_aux].
    change (string_rev_app x EmptyString) with (string_rev x).
    rewrite string_rev_involutive. reflexivity.
  - change (String.concat "/" (x :: y :: q)) with (x ++ "/" ++ String.concat "/" (y :: q)).
    rewrite split_slash_aux_app by exact Hx. cbn [String.append split_slash_aux Ascii.eqb].
    change (string_rev_app x EmptyString) with (string_rev x).
    rewrite string_rev_involutive, IH; [reflexivity | discriminate | exact Hs'].
Qed.

Lemma seg_ok_clean x : seg_ok x ->
  (String.eqb x EmptyString || String.eqb x ".") = false /\ String.eqb x ".." = false.
Proof.
  intros (H1 & H2 & H3 & _).
  rewrite <- !String.eqb_neq in H1, H2, H3. rewrite H1, H2, H3. auto.
Qed.

Lemma clean_aux_ok ss : forall rest acc, Forall seg_ok ss ->
  clean_aux (ss ++ rest)%list acc = clean_aux rest (rev ss ++ acc)%list.
Proof.
  induction ss as [|x ss IH]; intros rest acc Hs; [reflexivity|].
  inversion Hs as [|? ? Hx Hs']; subst.
  destruct (seg_ok_clean x Hx) as [E1 E2].
  simpl. rewrite E1, E2, IH by exact Hs'. rewrite <- app_assoc. reflexivity.
Qed.

(** [filepath.Join] of clean segments. *)
Lemma join_plain prefix q : Forall seg_ok prefix -> Forall seg_ok q -> q <> [] ->
  join prefix (rel_string q) = (prefix ++ q)%list.
Proof.
  intros Hp Hq Hne. unfold join, rel_string.
  destruct q as [|x q']; [congruence|].
  rewrite split_concat; [| exact Hne |].
  - unfold clean.
    transitivity (clean_aux ((prefix ++ x :: q') ++ [])%list []); [rewrite app_nil_r; reflexivity|].
    rewrite clean_aux_ok by (apply Forall_app; split; assumption).
    simpl. rewrite app_nil_r. apply rev_involutive.
  - eapply Forall_impl; [| exact Hq]. intros y (_ & _ & _ & Hy). exact Hy.
Qed.

Lemma join_root prefix : Forall seg_ok prefix -> join prefix (rel_string []) = prefix.
Proof.
  intro Hp. unfold join, clean. simpl rel_string.
  change (split_slash ".") with ["."].
  rewrite clean_aux_ok by exact Hp. simpl. rewrite app_nil_r. apply rev_involutive.
Qed.

(** ** Lemmas: the destination file system *)

Lemma path_eqb_spec p q : reflect (p = q) (path_eqb p q).
Proof.
  apply iff_reflect. revert q. induction p as [|x p IH]; intros [|y q]; simpl;
    split; intro H; try congruence; try reflexivity.
  - injection H as -> ->. rewrite String.eqb_refl. simpl. apply IH. reflexivity.
  - apply andb_prop in H as [Hxy Hpq]. apply String.eqb_eq in Hxy. apply IH in Hpq.
    subst. reflexivity.
Qed.

Lemma path_eqb_refl p : path_eqb p p = true.
Proof. destruct (path_eqb_spec p p); congruence. Qed.

Lemma fs_lookup_delete p q fs :
  fs_lookup q (fs_delete p fs) = if path_eqb p q then None else fs_lookup q fs.
Proof.
  unfold fs_delete. induction fs as [|[r n] fs IH]; simpl.
  - destruct (path_eqb p q); reflexivity.
  - destruct (path_eqb_spec r p) as [->|Hrp]; simpl.
    + rewrite IH. destruct (path_eqb_spec p q); reflexivity.
    + destruct (path_eqb_spec r q) as [->|Hrq].
      * destruct (path_eqb_spec p q); congruence.
      * exact IH.
Qed.

Lemma fs_lookup_put p n q fs :
  fs_lookup q (fs_put p n fs) = if path_eqb p q then Some n else fs_lookup q fs.
Proof.
  unfold fs_put. simpl. rewrite fs_lookup_delete. destruct (path_eqb p q); reflexivity.
Qed.

Lemma fs_lookup_put_same p n fs : fs_lookup p (fs_put p n fs) = Some n.
Proof. rewrite fs_lookup_put, path_eqb_refl. reflexivity. Qed.

Lemma fs_lookup_put_other p n q fs : q <> p -> fs_lookup q (fs_put p n fs) = fs_lookup q fs.
Proof. intro H. rewrite fs_lookup_put. destruct (path_eqb_spec p q); congruence. Qed.

Lemma fs_lookup_delete_same p fs : fs_lookup p (fs_delete p fs) = None.
Proof. rewrite fs_lookup_delete, path_eqb_refl. reflexivity. Qed.

Lemma fs_lookup_delete_other p q fs : q <> p -> fs_lookup q (fs_delete p fs) = fs_lookup q fs.
Proof. intro H. rewrite fs_lookup_delete. destruct (path_eqb_spec p q); congruence. Qed.

Lemma os_Remove_ok p fs fs' : os_Remove p fs = OsOk fs' -> fs' = fs_delete p fs.
Proof.
  unfold os_Remove. destruct (fs_lookup p fs) as [[|d m]|]; try discriminate.
  - destruct existsb; [discriminate|]. intro H. injection H as <-. reflexivity.
  - intro H. injection H as <-. reflexivity.
Qed.

Lemma os_Remove_enoent p fs : os_Remove p fs = OsErr ENOENT -> fs_lookup p fs = None.
Proof.
  unfold os_Remove. destruct (fs_lookup p fs) as [[|d m]|]; try discriminate; auto.
  destruct existsb; discriminate.
Qed.

Lemma os_Remove_file p fs d m : fs_lookup p fs = Some (FFile d m) ->
  os_Remove p fs = OsOk (fs_delete p fs).
Proof. unfold os_Remove. intros ->. reflexivity. Qed.

Lemma os_OpenFile_fresh p perm fs fs1 : fs_lookup p fs = None ->
  os_OpenFile p perm fs = OsOk fs1 -> fs1 = fs_put p (FFile EmptyString perm) fs.
Proof.
  unfold os_OpenFile. intros ->. destruct (parent_check p fs); [discriminate|].
  intro H. injection H as <-. reflexivity.
Qed.

(** A fresh file written with [out] and then pruned. *)
Lemma write_prune_lookup target out mode fs0 :
  let fs2 := prune target (fs_write target out (fs_put target (FFile EmptyString mode) fs0)) in
  fs_lookup target fs2 = (if isOnlyWhitespace out then None else Some (FFile out mode)) /\
  (forall t, t <> target -> fs_lookup t fs2 = fs_lookup t fs0).
Proof.
  cbv zeta. unfold fs_write. rewrite fs_lookup_put_same. simpl String.append.
  unfold prune, os_ReadFile. rewrite fs_lookup_put_same.
  destruct (isOnlyWhitespace out).
  - rewrite (os_Remove_file _ _ out mode) by apply fs_lookup_put_same. split.
    + apply fs_lookup_delete_same.
    + intros t Ht. rewrite fs_lookup_delete_other, !fs_lookup_put_other; auto.
  - split; [apply fs_lookup_put_same|].
    intros t Ht. rewrite !fs_lookup_put_other; auto.
Qed.

(** What a completed file entry leaves behind. *)
Lemma visit_file_ok mk fm target data mode w w' tr :
  visit_file mk fm target data mode w = (VOk, w', tr) ->
  exists ns out, parse fm data = POk ns /\ exec mk fm ns (ps w) = (out, None, ps w') /\
    tr = [(target, Some out)] /\
    fs_lookup target (fs w') = (if isOnlyWhitespace out then None else Some (FFile out mode)) /\
    (forall t, t <> target -> fs_lookup t (fs w') = fs_lookup t (fs w)).
Proof.
  unfold visit_file. intro H.
  assert (Hfs0 : forall fs0, fs_lookup target fs0 = None ->
            (forall t, t <> target -> fs_lookup t fs0 = fs_lookup t (fs w)) ->
            match os_OpenFile target mode fs0 with
            | OsErr e => (VErr (XOs e), mkWorld fs0 (ps w), [])
            | OsOk fs1 =>
                match parse fm data with
                | PErr m => (VPanic m, mkWorld (prune target fs1) (ps w), [])
                | PUnsupported => (VUnsupported, mkWorld fs1 (ps w), [])
                | POk ns =>
                    let '(out, err, s1) := exec mk fm ns (ps w) in
                    let fs2 := prune target (fs_write target out fs1) in
                    match err with
                    | Some x => (VErr x, mkWorld fs2 s1, [])
                    | None => (VOk, mkWorld fs2 s1, [(target, Some out)])
                    end
                end
            end = (VOk, w', tr) ->
            exists ns out, parse fm data = POk ns /\ exec mk fm ns (ps w) = (out, None, ps w') /\
              tr = [(target, Some out)] /\
              fs_lookup target (fs w') =
                (if isOnlyWhitespace out then None else Some (FFile out mode)) /\
              (forall t, t <> target -> fs_lookup t (fs w') = fs_lookup t (fs w))).
  { intros fs0 Hnone Hframe H0.
    destruct (os_OpenFile target mode fs0) as [fs1|e] eqn:EO; [|discriminate].
    rewrite (os_OpenFile_fresh _ _ _ _ Hnone EO) in H0.
    destruct (parse fm data) as [ns| |] eqn:EP; try discriminate.
    destruct (exec mk fm ns (ps w)) as [[out err] s1] eqn:EX.
    destruct err; [discriminate|]. injection H0 as <- <-.
    destruct (write_prune_lookup target out mode fs0) as [Ht Ho].
    exists ns, out. repeat split; auto.
    intros t Hne. simpl. rewrite Ho by exact Hne. apply Hframe. exact Hne. }
  destruct (os_Remove target (fs w)) as [fs'|e] eqn:ER.
  - apply os_Remove_ok in ER. subst fs'. apply (Hfs0 (fs_delete target (fs w))); auto.
    + apply fs_lookup_delete_same.
    + intros t Ht. apply fs_lookup_delete_other. exact Ht.
  - destruct e; try discriminate.
    apply os_Remove_enoent in ER. apply (Hfs0 (fs w)); auto.
Qed.

Lemma os_Mkdir_ok p fs fs' : os_Mkdir p fs = OsOk fs' -> fs' = fs_put p FDir fs.
Proof.
  unfold os_Mkdir. destruct (fs_lookup p fs); [discriminate|].
  destruct (parent_check p fs); [discriminate|]. intro H. injection H as <-. reflexivity.
Qed.

Lemma parent_check_none p fs : parent_check p fs = None <-> fs_lookup (removelast p) fs = Some FDir.
Proof.
  unfold parent_check. destruct (fs_lookup (removelast p) fs) as [[|d m]|]; split; intro H;
    try reflexivity; try discriminate.
  destruct (existsb _ _); discriminate.
Qed.

Lemma os_OpenFile_fresh_ok p perm fs : fs_lookup p fs = None -> parent_check p fs = None ->
  os_OpenFile p perm fs = OsOk (fs_put p (FFile EmptyString perm) fs).
Proof. unfold os_OpenFile. intros -> ->. reflexivity. Qed.

Lemma removelast_neq {A} (p : list A) : p <> [] -> removelast p <> p.
Proof.
  intro Hne. destruct (exists_last Hne) as (l & a & ->). rewrite removelast_last.
  intro H. apply (f_equal (@length A)) in H. rewrite length_app in H. simpl in H. lia.
Qed.

(** What a completed walk callback leaves behind: one target changed. *)
Lemma visit_ok mk fm prefix e w w1 tr1 : visit mk fm prefix e w = (VOk, w1, tr1) ->
  exists target,
    (forall t, t <> target -> fs_lookup t (fs w1) = fs_lookup t (fs w)) /\
    (tr1 = [(target, None)] \/
     exists out m, tr1 = [(target, Some out)] /\
       fs_lookup target (fs w1) = (if isOnlyWhitespace out then None else Some (FFile out m))).
Proof.
  unfold visit. intro H.
  destruct (parse fm (rel_string (segs e))) as [ns| |]; try discriminate.
  destruct (exec mk fm ns (ps w)) as [[newName [err|]] s1]; [discriminate|].
  cbv zeta in H. cbn [fs ps] in H.
  destruct (kind e) as [|data mode].
  - destruct (os_Mkdir (join prefix newName) (fs w)) as [fs'|err] eqn:EM.
    + apply os_Mkdir_ok in EM. subst fs'. injection H as <- <-.
      exists (join prefix newName). split; [|left; reflexivity].
      intros t Ht. apply fs_lookup_put_other. exact Ht.
    + destruct err; try discriminate. injection H as <- <-.
      exists (join prefix newName). split; [reflexivity | left; reflexivity].
  - apply visit_file_ok in H as (ns' & out & _ & _ & Htr & Hl & Ho).
    exists (join prefix newName). split; [exact Ho|]. right. exists out, mode. auto.
Qed.

Lemma walk_ok_split mk fm prefix e rest w w' tr :
  walk mk fm prefix (e :: rest) w = (VOk, w', tr) ->
  exists w1 tr1 tr2, visit mk fm prefix e w = (VOk, w1, tr1) /\
    walk mk fm prefix rest w1 = (VOk, w', tr2) /\ tr = (tr1 ++ tr2)%list.
Proof.
  simpl. destruct (visit mk fm prefix e w) as [[r1 w1] tr1].
  destruct r1; try discriminate.
  destruct (walk mk fm prefix rest w1) as [[r2 w2] tr2] eqn:EW.
  intro H. simpl in H. injection H as -> -> <-. exists w1, tr1, tr2. auto.
Qed.

(** A completed walk leaves every path it did not report alone. *)
Lemma walk_frame mk fm prefix src : forall w w' tr,
  walk mk fm prefix src w = (VOk, w', tr) ->
  forall t, ~ In t (map fst tr) -> fs_lookup t (fs w') = fs_lookup t (fs w).
Proof.
  induction src as [|e rest IH]; intros w w' tr H t Ht.
  - simpl in H. injection H as <- <-. reflexivity.
  - apply walk_ok_split in H as (w1 & tr1 & tr2 & Hv & Hw & ->).
    rewrite map_app in Ht. rewrite (IH _ _ _ Hw t) by (intro; apply Ht; apply in_or_app; auto).
    apply visit_ok in Hv as (target & Ho & Htr).
    apply Ho. intros ->. apply Ht. apply in_or_app. left.
    destruct Htr as [->|(out & m & -> & _)]; left; reflexivity.
Qed.

Lemma walk_files mk fm prefix src : forall w w' tr,
  walk mk fm prefix src w = (VOk, w', tr) -> NoDup (map fst tr) ->
  forall t out, In (t, Some out) tr ->
  exists m, fs_lookup t (fs w') = (if isOnlyWhitespace out then None else Some (FFile out m)).
Proof.
  induction src as [|e rest IH]; intros w w' tr H Hnd t out Hin.
  - simpl in H. injection H as _ <-. destruct Hin.
  - apply walk_ok_split in H as (w1 & tr1 & tr2 & Hv & Hw & ->).
    rewrite map_app in Hnd. apply in_app_or in Hin as [Hin|Hin].
    + apply visit_ok in Hv as (target & _ & Htr).
      destruct Htr as [->|(out' & m & -> & Hl)]; destruct Hin as [Hin|[]];
        [discriminate|]. injection Hin as -> ->.
      exists m. rewrite (walk_frame _ _ _ _ _ _ _ Hw t); [exact Hl|].
      apply (nodup_app_disj _ _ t Hnd). left. reflexivity.
    + eapply IH; [exact Hw | | exact Hin]. eapply NoDup_app_remove_l. exact Hnd.
Qed.

Lemma re2_space_in a : re2_space a = true <-> In a re2_space_chars.
Proof.
  unfold re2_space, re2_space_chars. simpl. split.
  - intro H. repeat (apply Bool.orb_true_iff in H as [H|H]);
      apply Ascii.eqb_eq in H; subst; tauto.
  - intros [<-|[<-|[<-|[<-|[<-|[]]]]]]; reflexivity.
Qed.

Lemma isOnlyWhitespace_chars s :
  isOnlyWhitespace s = true <-> Forall (fun a => In a re2_space_chars) (list_ascii_of_string s).
Proof.
  unfold isOnlyWhitespace. induction s as [|a s IH]; simpl.
  - split; constructor.
  - rewrite Bool.negb_orb, Bool.negb_involutive, Bool.andb_true_iff, IH, re2_space_in.
    split; [intros [H1 H2]; constructor; auto | intro H; inversion H; auto].
Qed.

(** ** C4 *)

(** A file rendering to a lone carriage return, or to a lone form feed, is
    removed from the destination, although neither is a space, a tab or a
    newline. *)
Lemma cr_and_ff_files_pruned :
  fst (fst ex_run_blank) = VOk /\
  In (["dst"; "cr.txt"], Some (String "013"%char EmptyString)) (snd ex_run_blank) /\
  fs_lookup ["dst"; "cr.txt"] (fs (snd (fst ex_run_blank))) = None /\
  In (["dst"; "ff.txt"], Some (String "012"%char EmptyString)) (snd ex_run_blank) /\
  fs_lookup ["dst"; "ff.txt"] (fs (snd (fst ex_run_blank))) = None.
Proof. vm_compute. repeat split; auto 10. Qed.

(** C4 (amended). The blank test is RE2's [\s]: a text is blank exactly when
    all its characters are space, tab, newline, form feed or carriage return.
    After a render that completes, with no destination path produced twice,
    every file it rendered is absent when its output is blank, and present
    with exactly that output otherwise. *)
Theorem render_prunes_re2_blank_files :
  (forall s, isOnlyWhitespace s = true <->
             Forall (fun a => In a re2_space_chars) (list_ascii_of_string s)) /\
  (forall mk t prefix w w' tr,
     Execute mk t prefix w = (VOk, w', tr) -> NoDup (map fst tr) ->
     forall target out, In (target, Some out) tr ->
     (isOnlyWhitespace out = true -> fs_lookup target (fs w') = None) /\
     (isOnlyWhitespace out = false -> exists m, fs_lookup target (fs w') = Some (FFile out m))).
Proof.
  split; [exact isOnlyWhitespace_chars|].
  intros mk t prefix w w' tr H Hnd target out Hin.
  destruct (walk_files _ _ _ _ _ _ _ (Execute_ok _ _ _ _ _ _ H) Hnd target out Hin) as [m Hm].
  split; intro Hws; rewrite Hws in Hm; [exact Hm | exists m; exact Hm].
Qed.

(** ** C5 *)

(** C5. The file branch of the walk: when it completes, the target holds
    exactly the new output with the source's mode (or is gone if the output
    is blank), whatever was there before; it completes over a missing target
    and over an existing file; a removal error other than "does not exist"
    is returned unchanged, and an error of a callback ends the walk. *)
Theorem file_entry_replaces_target : forall mk fm target data mode w,
  (forall w' tr, visit_file mk fm target data mode w = (VOk, w', tr) ->
     exists ns out, parse fm data = POk ns /\ exec mk fm ns (ps w) = (out, None, ps w') /\
       tr = [(target, Some out)] /\
       fs_lookup target (fs w') =
         (if isOnlyWhitespace out then None else Some (FFile out mode))) /\
  (forall ns out s1, target <> [] -> parent_check target (fs w) = None ->
     (fs_lookup target (fs w) = None \/
      exists old m0, fs_lookup target (fs w) = Some (FFile old m0)) ->
     parse fm data = POk ns -> exec mk fm ns (ps w) = (out, None, s1) ->
     fst (fst (visit_file mk fm target data mode w)) = VOk) /\
  (forall e, os_Remove target (fs w) = OsErr e -> e <> ENOENT ->
     visit_file mk fm target data mode w = (VErr (XOs e), w, [])) /\
  (forall prefix e rest x w1 tr1, visit mk fm prefix e w = (VErr x, w1, tr1) ->
     walk mk fm prefix (e :: rest) w = (VErr x, w1, tr1)).
Proof.
  intros mk fm target data mode w. split; [|split; [|split]].
  - intros w' tr H. apply visit_file_ok in H as (ns & out & Hp & He & Htr & Hl & _).
    exists ns, out. auto.
  - intros ns out s1 Hne Hpar Hold Hp He. unfold visit_file.
    destruct Hold as [Hnone|(old & m0 & Hf)].
    + assert (ER : os_Remove target (fs w) = OsErr ENOENT)
        by (unfold os_Remove; rewrite Hnone; reflexivity).
      rewrite ER, os_OpenFile_fresh_ok by assumption. rewrite Hp, He. reflexivity.
    + rewrite (os_Remove_file _ _ _ _ Hf).
      rewrite os_OpenFile_fresh_ok.
      * rewrite Hp, He. reflexivity.
      * apply fs_lookup_delete_same.
      * apply parent_check_none. apply parent_check_none in Hpar.
        rewrite fs_lookup_delete_other; [exact Hpar|]. apply removelast_neq. exact Hne.
  - intros e H Hne. unfold visit_file. rewrite H. destruct e; congruence.
  - intros prefix e rest x w1 tr1 H. simpl. rewrite H. reflexivity.
Qed.

(** ** C6 *)

Section Plain.
Variables (mk : missingkey) (fm : funcmap) (prefix : list string) (st : pstate).
Hypothesis Hprefix : Forall seg_ok prefix.

Lemma plain_fresh dirs seen done fs q : plain_inv prefix dirs seen done fs -> ~ In q seen ->
  fs_lookup (prefix ++ q)%list fs = None.
Proof.
  intros (_ & _ & _ & I2 & _) Hq. destruct (fs_lookup (prefix ++ q)%list fs) eqn:E; [|reflexivity].
  exfalso. destruct (I2 (prefix ++ q)%list) as (q' & Hq' & Heq); [congruence|].
  apply app_inv_head in Heq. subst. contradiction.
Qed.

Lemma plain_parent dirs seen done fs q : plain_inv prefix dirs seen done fs -> q <> [] ->
  In (removelast q) dirs -> parent_check (prefix ++ q)%list fs = None.
Proof.
  intros (_ & _ & I1 & _) Hq Hd. unfold parent_check.
  rewrite removelast_app by exact Hq. rewrite I1 by exact Hd. reflexivity.
Qed.

(** One plain entry. *)
Lemma visit_plain dirs seen done fz e :
  plain_inv prefix dirs seen done fz -> plain_entry e ->
  match segs e with
  | [] => kind e = SDir
  | q => ~ In q seen /\ In (removelast q) dirs /\ Forall seg_ok q
  end ->
  exists fz', visit mk fm prefix e (mkWorld fz st) =
                (VOk, mkWorld fz' st,
                 [((prefix ++ segs e)%list,
                   match kind e with SDir => None | SFile d _ => Some d end)]) /\
    plain_inv prefix (match segs e with
               | [] => dirs
               | q => match kind e with SDir => q :: dirs | SFile _ _ => dirs end
               end)
              (match segs e with [] => seen | q => q :: seen end) (e :: done) fz'.
Proof.
  intros Hinv [Hname Hdata] Hwf.
  pose proof Hinv as (I0 & I5 & I1 & I2 & I6 & I4 & I3).
  destruct e as [q k]. simpl segs in *. simpl kind in *.
  destruct (render_plain mk fm (rel_string q) st Hname) as (ns & Hp & He).
  unfold visit. simpl segs. rewrite Hp. simpl ps. rewrite He. cbv zeta. cbn [fs ps kind].
  destruct q as [|x q'].
  - (* the root *)
    subst k. rewrite join_root by exact Hprefix.
    assert (Hr : fs_lookup prefix fz = Some FDir)
      by (rewrite <- (app_nil_r prefix); apply I1; exact I0).
    unfold os_Mkdir. rewrite Hr. exists fz. rewrite app_nil_r. split; [reflexivity|].
    repeat split; auto.
    + intros q Hq. destruct (I6 q Hq) as [->|(e' & He' & Hs)]; [left; reflexivity|].
      right. exists e'. split; [right|]; assumption.
    + intros e' [<-|He']; [apply I5; exact I0 | auto].
    + intros e' [<-|He']; [|auto]. simpl. rewrite app_nil_r. exact Hr.
  - set (q := x :: q') in *. destruct Hwf as (Hnew & Hpar & Hseg).
    assert (Hne : q <> []) by discriminate.
    rewrite join_plain by assumption.
    pose proof (plain_fresh _ _ _ _ _ Hinv Hnew) as Hnone.
    pose proof (plain_parent _ _ _ _ _ Hinv Hne Hpar) as Hpc.
    assert (Hold : forall e', In e' done -> segs e' <> q)
      by (intros e' He' Heq; apply Hnew; rewrite <- Heq; auto).
    destruct k as [|d m].
    + unfold os_Mkdir. rewrite Hnone, Hpc.
      exists (fs_put (prefix ++ q)%list FDir fz). split; [reflexivity|].
      repeat split.
      * right. exact I0.
      * intros q0 [<-|Hq0]; [left; reflexivity | right; auto].
      * intros q0 [<-|Hq0]; [apply fs_lookup_put_same|].
        rewrite fs_lookup_put_other; [auto|].
        intro Heq. apply app_inv_head in Heq. subst. apply Hnew. auto.
      * intros p Hp'. rewrite fs_lookup_put in Hp'.
        destruct (path_eqb_spec (prefix ++ q)%list p) as [Heq|_].
        -- exists q. split; [left; reflexivity | symmetry; exact Heq].
        -- destruct (I2 p Hp') as (q0 & Hq0 & ->). exists q0. split; [right|]; auto.
      * intros q0 [<-|Hq0].
        -- right. exists (mkSEntry q SDir). split; [left|]; reflexivity.
        -- destruct (I6 q0 Hq0) as [->|(e' & He' & Hs)]; [left; reflexivity|].
           right. exists e'. split; [right|]; assumption.
      * intros e' [<-|He']; [left; reflexivity | right; auto].
      * intros e' [<-|He']; [apply fs_lookup_put_same|].
        rewrite fs_lookup_put_other; [auto|].
        intro Heq. apply app_inv_head in Heq. apply (Hold e' He'). exact Heq.
    + destruct (render_plain mk fm d st Hdata) as (ns' & Hpd & Hed).
      unfold visit_file. cbn [fs ps].
      assert (ER : os_Remove (prefix ++ q)%list fz = OsErr ENOENT)
        by (unfold os_Remove; rewrite Hnone; reflexivity).
      rewrite ER, os_OpenFile_fresh_ok by assumption. rewrite Hpd, Hed.
      destruct (write_prune_lookup (prefix ++ q)%list d m fz) as [Ht Ho].
      eexists. split; [reflexivity|].
      repeat split.
      * exact I0.
      * intros q0 Hq0. right. auto.
      * intros q0 Hq0. rewrite Ho; [auto|].
        intro Heq. apply app_inv_head in Heq. subst. apply Hnew. auto.
      * intros p Hp''. destruct (list_eq_dec string_dec p (prefix ++ q)%list) as [->|Hpq].
        -- exists q. split; [left|]; reflexivity.
        -- rewrite Ho in Hp'' by exact Hpq.
           destruct (I2 p Hp'') as (q0 & Hq0 & ->). exists q0. split; [right|]; auto.
      * intros q0 [<-|Hq0].
        -- right. exists (mkSEntry q (SFile d m)). split; [left|]; reflexivity.
        -- destruct (I6 q0 Hq0) as [->|(e' & He'' & Hs)]; [left; reflexivity|].
           right. exists e'. split; [right|]; assumption.
      * intros e' [<-|He']; [left; reflexivity | right; auto].
      * intros e' [<-|He']; [exact Ht|].
        rewrite Ho; [auto|].
        intro Heq. apply app_inv_head in Heq. apply (Hold e' He'). exact Heq.
Qed.

Lemma walk_plain src : forall dirs seen done fz,
  plain_inv prefix dirs seen done fz -> src_wf dirs seen src -> Forall plain_entry src ->
  exists fz' tr, walk mk fm prefix src (mkWorld fz st) = (VOk, mkWorld fz' st, tr) /\
    exists dirs' seen', plain_inv prefix dirs' seen' (rev src ++ done)%list fz'.
Proof.
  induction src as [|e rest IH]; intros dirs seen done fz Hinv Hwf Hpl.
  - exists fz, []. split; [reflexivity|]. exists dirs, seen. exact Hinv.
  - inversion Hpl as [|? ? He Hrest]; subst.
    destruct e as [q k]. simpl rev. rewrite <- app_assoc. simpl app.
    assert (Hstep : forall dirs1 seen1,
              (exists fz1, visit mk fm prefix (mkSEntry q k) (mkWorld fz st) =
                 (VOk, mkWorld fz1 st,
                  [((prefix ++ q)%list, match k with SDir => None | SFile d _ => Some d end)]) /\
               plain_inv prefix dirs1 seen1 (mkSEntry q k :: done) fz1) ->
              src_wf dirs1 seen1 rest ->
              exists fz' tr, walk mk fm prefix (mkSEntry q k :: rest) (mkWorld fz st) =
                (VOk, mkWorld fz' st, tr) /\
                exists dirs' seen', plain_inv prefix dirs' seen' (rev rest ++ mkSEntry q k :: done)%list fz').
    { intros dirs1 seen1 (fz1 & Hv & Hinv1) Hwf1.
      destruct (IH dirs1 seen1 _ fz1 Hinv1 Hwf1 Hrest) as (fz' & tr & Hw & Hi).
      exists fz', ([((prefix ++ q)%list, match k with SDir => None | SFile d _ => Some d end)] ++ tr)%list.
      split; [|exact Hi].
      cbn [walk]. rewrite Hv, Hw. reflexivity. }
    destruct q as [|x q']; simpl in Hwf.
    + destruct Hwf as [Hk Hwf]. apply (Hstep dirs seen); [|exact Hwf].
      apply (visit_plain dirs seen done fz (mkSEntry [] k) Hinv He Hk).
    + destruct Hwf as (Hn & Hd & Hs & Hwf). eapply Hstep; [|exact Hwf].
      apply (visit_plain dirs seen done fz (mkSEntry (x :: q') k) Hinv He (conj Hn (conj Hd Hs))).
Qed.

End Plain.



(** ** C3 *)



(** ** C9 *)

(** C9. Loading the context: a missing [project.json] gives a template with
    an empty context, whose bindings are just the given function map; content
    that does not decode gives no template and a syntax error, and decoded
    content that is neither an object nor [null] gives no template and a
    type error, so nothing is rendered. *)
Theorem get_context_absent_or_malformed : forall unmarshal tmplDir funcs,
  Get unmarshal FRAbsent tmplDir funcs = (Some (mkTemplate tmplDir [] funcs false), None) /\
  BindPrompts (mkTemplate tmplDir [] funcs false) = funcs /\
  (forall buf, unmarshal buf = None ->
     Get unmarshal (FRContent buf) tmplDir funcs = (None, Some GSyntax)) /\
  (forall buf v, unmarshal buf = Some v -> v <> JNull -> (forall m, v <> JObj m) ->
     Get unmarshal (FRContent buf) tmplDir funcs = (None, Some GType)).
Proof.
  intros unmarshal tmplDir funcs. split; [reflexivity|]. split; [reflexivity|]. split.
  - intros buf H. unfold Get, load_context. rewrite H. reflexivity.
  - intros buf v H Hn Ho. unfold Get, load_context. rewrite H.
    destruct v; try reflexivity; [congruence | exfalso; exact (Ho m eq_refl)].
Qed.

(** ** Instances of the theorems on concrete inputs *)

Ltac solve_nodup := vm_compute; repeat constructor; simpl; intuition discriminate.

Lemma defaults_mode_binds_declared_defaults_witness :
  NoDup (ctx_names ex_ctx) /\
  exists b, BindPrompts (mkTemplate [] ex_ctx fm_empty true) "tls" = Some b /\
            b ex_s0 = (Ret (JBool true), ex_s0).
Proof.
  assert (H : NoDup (ctx_names ex_ctx)) by solve_nodup.
  split; [exact H|].
  apply (proj2 (proj2 (proj2 (proj2 (defaults_mode_binds_declared_defaults [] ex_ctx fm_empty H))))
           "adv" [("port", JNum 5432); ("tls", JList [JBool true; JBool false])]
           "tls" (JBool true) [JBool false] ex_s0); simpl; auto 10.
Defined.

Lemma defaults_mode_empty_list_panics_witness :
  NoDup (ctx_names ex_empty_ctx) /\
  exists b msg, BindPrompts (mkTemplate [] ex_empty_ctx fm_empty true) "hosts" = Some b /\
                b ex_s0 = (Panic msg, ex_s0).
Proof.
  assert (H : NoDup (ctx_names ex_empty_ctx)) by solve_nodup.
  split; [exact H|].
  apply (proj2 (defaults_mode_empty_list_panics [] ex_empty_ctx fm_empty H)
           "adv" [("hosts", JList [])] "hosts" ex_s0); simpl; auto.
Defined.

Lemma declined_group_children_never_prompted_witness :
  memo_lookup (PKey "advanced") (memo (ps (snd (fst ex_run_adv)))) = Some (JBool false) /\
  ~ In (PChild "advanced" "db") (asked (ps (snd (fst ex_run_adv)))).
Proof.
  split; [vm_compute; reflexivity|].
  apply (declined_group_children_never_prompted MKDefault ex_adv_src ex_adv_ctx ex_dst
           (ex_w0 (mkPState [] [Accept] [])) (fst (fst ex_run_adv)) (snd (fst ex_run_adv))
           (snd ex_run_adv)).
  - reflexivity.
  - vm_compute. reflexivity.
  - vm_compute. discriminate.
Defined.

Lemma bindings_cover_and_memoize_witness :
  BindPrompts (mkTemplate [] ex_ctx fm_empty false) "port" <> None.
Proof.
  apply (proj1 (proj2 (bindings_cover_and_memoize [] ex_ctx false))
           "adv" [("port", JNum 5432); ("tls", JList [JBool true; JBool false])]
           "port" (JNum 5432)); simpl; auto 10.
Defined.


Lemma render_prunes_re2_blank_files_witness :
  exists m, fs_lookup ["dst"; "hello.txt"] (fs (snd (fst ex_run_blank))) =
            Some (FFile "Hello" m).
Proof.
  refine (proj2 (proj2 render_prunes_re2_blank_files MKDefault
                   (mkTemplate ex_blank_src [] fm_empty true) ex_dst (ex_w0 ex_s0)
                   (snd (fst ex_run_blank)) (snd ex_run_blank) _ _
                   ["dst"; "hello.txt"] "Hello" _) _).
  - vm_compute. reflexivity.
  - solve_nodup.
  - vm_compute. auto 10.
  - reflexivity.
Defined.

Lemma file_entry_replaces_target_witness :
  fst (fst (visit_file MKDefault fm_empty ["dst"; "a.txt"] "new" 420%Z ex_w_old)) = VOk /\
  fs_lookup ["dst"; "a.txt"] (fs (snd (fst (visit_file MKDefault fm_empty ["dst"; "a.txt"]
                                              "new" 420%Z ex_w_old)))) =
    Some (FFile "new" 420%Z).
Proof.
  split; [|vm_compute; reflexivity].
  refine (proj1 (proj2 (file_entry_replaces_target MKDefault fm_empty ["dst"; "a.txt"] "new"
                          420%Z ex_w_old)) [TText "new"] "new" ex_s0 _ _ _ _ _).
  - discriminate.
  - reflexivity.
  - right. exists "old and longer content", 384%Z. reflexivity.
  - reflexivity.
  - reflexivity.
Defined.

Ltac solve_seg_ok := repeat constructor; unfold seg_ok; repeat split; try discriminate.


Lemma get_context_absent_or_malformed_witness :
  json_decode "{" = None /\ Get json_decode (FRContent "{") [] fm_empty = (None, Some GSyntax).
Proof.
  split; [reflexivity|].
  apply (proj1 (proj2 (proj2 (get_context_absent_or_malformed json_decode [] fm_empty))) "{").
  vm_compute. reflexivity.
Defined.

(** ** Further properties of the code *)

Lemma fold_set_indep (f : string -> jval -> binding) : forall l fm fm' n,
  In n (map fst l) ->
  fold_left (fun fm kv => let '(c, cv) := kv in fm_set c (f c cv) fm) l fm n =
  fold_left (fun fm kv => let '(c, cv) := kv in fm_set c (f c cv) fm) l fm' n.
Proof.
  induction l as [|[c cv] l IH]; intros fm fm' n Hn; simpl in *; [contradiction|].
  destruct (in_dec string_dec n (map fst l)) as [Hin|Hout]; [apply IH; exact Hin|].
  destruct Hn as [<-|Hn]; [|contradiction].
  rewrite !(fold_set_other f) by exact Hout. rewrite !fm_set_eq. reflexivity.
Qed.

(** A name [bind_key] sets gets a value that does not depend on the map
    it starts from; any other name passes through. *)
Lemma bind_key_cases u k v n :
  (forall fm, bind_key u fm k v n = fm n) \/
  (forall fm fm', bind_key u fm k v n = bind_key u fm' k v n).
Proof.
  destruct (in_dec string_dec n (entry_names k v)) as [Hin|Hout];
    [| left; intro fm; apply bind_key_other; exact Hout].
  unfold bind_key. destruct v as [| | | | |m];
    try (right; intros fm fm'; destruct u; simpl in Hin; destruct Hin as [<-|[]];
         simpl; rewrite !fm_set_eq; reflexivity).
  destruct (in_dec string_dec n (map fst m)) as [Hc|Hc].
  - right. intros fm fm'. destruct u; simpl; apply fold_set_indep; exact Hc.
  - simpl in Hin. destruct Hin as [<-|Hin]; [|contradiction].
    destruct m as [|c m].
    + left. intro fm. destruct u; reflexivity.
    + right. intros fm fm'. destruct u;
        [rewrite !hbd_gate by (discriminate || exact Hc) |
         rewrite !hbp_gate by (discriminate || exact Hc)]; reflexivity.
Qed.

Lemma bind_key_ext u k v fm fm' :
  (forall n, fm n = fm' n) -> forall n, bind_key u fm k v n = bind_key u fm' k v n.
Proof.
  intros H n. destruct (bind_key_cases u k v n) as [Hp|Hi]; [rewrite !Hp; apply H | apply Hi].
Qed.

Lemma bind_fold_ext u : forall ctx fm fm', (forall n, fm n = fm' n) ->
  forall n, fold_left (fun fm kv => let '(k, v) := kv in bind_key u fm k v) ctx fm n =
            fold_left (fun fm kv => let '(k, v) := kv in bind_key u fm k v) ctx fm' n.
Proof.
  induction ctx as [|[k v] ctx IH]; intros fm fm' H n; simpl; [apply H|].
  apply IH. apply bind_key_ext. exact H.
Qed.

Lemma bind_key_comm u k1 v1 k2 v2 fm n :
  (forall x, In x (entry_names k1 v1) -> ~ In x (entry_names k2 v2)) ->
  bind_key u (bind_key u fm k1 v1) k2 v2 n = bind_key u (bind_key u fm k2 v2) k1 v1 n.
Proof.
  intro Hd.
  destruct (in_dec string_dec n (entry_names k1 v1)) as [H1|H1].
  - rewrite (bind_key_other u _ k2 v2 n (Hd n H1)).
    destruct (bind_key_cases u k1 v1 n) as [Hp|Hi].
    + rewrite !Hp. symmetry. apply bind_key_other. exact (Hd n H1).
    + apply Hi.
  - rewrite (bind_key_other u _ k1 v1 n H1).
    destruct (bind_key_cases u k2 v2 n) as [Hp|Hi].
    + rewrite !Hp. apply bind_key_other. exact H1.
    + apply Hi.
Qed.

Lemma bind_fold_perm u : forall ctx ctx', Permutation ctx ctx' -> NoDup (ctx_names ctx) ->
  forall fm n,
  fold_left (fun fm kv => let '(k, v) := kv in bind_key u fm k v) ctx fm n =
  fold_left (fun fm kv => let '(k, v) := kv in bind_key u fm k v) ctx' fm n.
Proof.
  intros ctx ctx' Hp. induction Hp as [|[k v] l l' Hp IH|[k1 v1] [k2 v2] l|l l' l'' H1 IH1 H2 IH2];
    intros Hnd fm n; simpl.
  - reflexivity.
  - apply IH. change (ctx_names ((k, v) :: l)) with (entry_names k v ++ ctx_names l)%list in Hnd.
    eapply NoDup_app_remove_l. exact Hnd.
  - change (ctx_names ((k2, v2) :: (k1, v1) :: l))
      with (entry_names k2 v2 ++ entry_names k1 v1 ++ ctx_names l)%list in Hnd.
    apply bind_fold_ext. intro x. symmetry. apply bind_key_comm.
    intros y Hy1 Hy2. apply (nodup_app_disj _ _ y Hnd Hy2). apply in_or_app. left. exact Hy1.
  - rewrite (IH1 Hnd). apply IH2. eapply Permutation_NoDup; [|exact Hnd].
    apply Permutation_flat_map. exact H1.
Qed.

(** X2. When the context's variable names are pairwise distinct, the order
    in which [range] visits the context does not matter: every order gives
    the same binding for every name. *)
Theorem bind_prompts_order_independent : forall paths ctx ctx' funcs u,
  NoDup (ctx_names ctx) -> Permutation ctx ctx' ->
  forall n, BindPrompts (mkTemplate paths ctx funcs u) n =
            BindPrompts (mkTemplate paths ctx' funcs u) n.
Proof.
  intros paths ctx ctx' funcs u Hnd Hp n. unfold BindPrompts. simpl.
  apply bind_fold_perm; assumption.
Qed.

(** X1. [BindPrompts] leaves every name the context does not declare bound
    as in the template's function map (bound or unbound), in both modes. *)
Theorem bind_prompts_keeps_undeclared : forall t n,
  ~ In n (ctx_names (Context t)) -> BindPrompts t n = FuncMap t n.
Proof. intros t n Hn. apply bind_fold_other. exact Hn. Qed.

Lemma bind_key_indep u k v n :
  In n (entry_names k v) -> v <> JObj [] ->
  forall fm fm', bind_key u fm k v n = bind_key u fm' k v n.
Proof.
  intros Hin Hv. destruct (bind_key_cases u k v n) as [Hp|Hi]; [|exact Hi].
  exfalso. destruct (in_dec string_dec n (map fst (match v with JObj m => m | _ => [] end))) as [Hc|Hc].
  - destruct v as [| | | | |m]; try contradiction.
    apply in_map_iff in Hc as ([c cv] & Heq & Hc). simpl in Heq. subst c.
    apply (bind_key_child u fm_empty k m n cv Hc). apply Hp.
  - assert (n = k) as ->.
    { destruct v; simpl in Hin; destruct Hin as [<-|Hin]; auto; contradiction. }
    specialize (Hp fm_empty). apply (bind_key_self u fm_empty k v Hv). exact Hp.
Qed.

(** X3. When several context entries declare the same name, the entry
    visited last decides its binding: the name gets the binding that entry
    gives on its own, whatever was visited before. (The key of an empty group
    sets nothing and is excluded.) *)
Theorem bind_prompts_last_declaration_wins : forall paths pre k v post funcs u n,
  In n (entry_names k v) -> v <> JObj [] -> ~ In n (ctx_names post) ->
  BindPrompts (mkTemplate paths (pre ++ (k, v) :: post)%list funcs u) n =
  BindPrompts (mkTemplate paths [(k, v)] fm_empty u) n.
Proof.
  intros paths pre k v post funcs u n Hin Hv Hpost. unfold BindPrompts. simpl.
  rewrite fold_left_app. simpl. rewrite bind_fold_other by exact Hpost.
  apply bind_key_indep; assumption.
Qed.


(** Walk composition. *)
(** X6. Walking two runs of entries one after the other: the second run
    starts from the world the first leaves, and only if the first completed;
    otherwise its result is the first run's result. *)
Theorem walk_app_sequential : forall mk fm prefix a b w,
  walk mk fm prefix (a ++ b) w =
  match walk mk fm prefix a w with
  | (VOk, w1, tr1) => let '(r, w2, tr2) := walk mk fm prefix b w1 in (r, w2, app tr1 tr2)
  | res => res
  end.
Proof.
  intros mk fm prefix a b. induction a as [|e a IH]; intro w; simpl.
  - destruct (walk mk fm prefix b w) as [[r w2] tr2]. reflexivity.
  - destruct (visit mk fm prefix e w) as [[r1 w1] tr1]. destruct r1; try reflexivity.
    rewrite IH. destruct (walk mk fm prefix a w1) as [[r2 w2] tr2].
    destruct r2; try reflexivity.
    destruct (walk mk fm prefix b w2) as [[r3 w3] tr3]. rewrite app_assoc. reflexivity.
Qed.

Lemma visit_file_open mk fm target data mode w fs0 :
  (os_Remove target (fs w) = OsOk fs0 \/ (os_Remove target (fs w) = OsErr ENOENT /\ fs0 = fs w)) ->
  fs_lookup target fs0 = None -> parent_check target fs0 = None ->
  visit_file mk fm target data mode w =
  let fs1 := fs_put target (FFile EmptyString mode) fs0 in
  match parse fm data with
  | PErr m => (VPanic m, mkWorld (prune target fs1) (ps w), [])
  | PUnsupported => (VUnsupported, mkWorld fs1 (ps w), [])
  | POk ns =>
      let '(out, err, s1) := exec mk fm ns (ps w) in
      let fs2 := prune target (fs_write target out fs1) in
      match err with
      | Some x => (VErr x, mkWorld fs2 s1, [])
      | None => (VOk, mkWorld fs2 s1, [(target, Some out)])
      end
  end.
Proof.
  intros Hr Hl Hp. unfold visit_file.
  destruct Hr as [E | [E ->]]; rewrite E; simpl; rewrite os_OpenFile_fresh_ok by assumption;
    reflexivity.
Qed.

Lemma parent_check_delete target fz : target <> [] -> parent_check target fz = None ->
  parent_check target (fs_delete target fz) = None.
Proof.
  intros Hne Hp. apply parent_check_none. apply parent_check_none in Hp.
  rewrite fs_lookup_delete_other by (apply removelast_neq; exact Hne). exact Hp.
Qed.

(** A target that is missing or a file, under an existing directory: the
    old file is removed and a fresh one can be opened. *)
Lemma target_free target fz :
  fs_lookup target fz <> Some FDir -> parent_check target fz = None ->
  exists fs0, (os_Remove target fz = OsOk fs0 \/ (os_Remove target fz = OsErr ENOENT /\ fs0 = fz)) /\
    fs_lookup target fs0 = None /\ parent_check target fs0 = None /\
    (forall t, t <> target -> fs_lookup t fs0 = fs_lookup t fz).
Proof.
  intros Hd Hp.
  assert (Hne : target <> []).
  { intros ->. apply parent_check_none in Hp. simpl in Hp. congruence. }
  unfold os_Remove. destruct (fs_lookup target fz) as [[|d m]|] eqn:El; [congruence| |].
  - exists (fs_delete target fz). split; [left; reflexivity|].
    split; [apply fs_lookup_delete_same|]. split; [apply parent_check_delete; assumption|].
    intros t Ht. apply fs_lookup_delete_other. exact Ht.
  - exists fz. auto.
Qed.

(** X9. A file whose contents do not parse as a template makes the callback
    panic after the target was removed and recreated empty; the deferred
    pruning then removes it, so the target (and any file that was there)
    is gone and no other path changed. *)
Theorem content_parse_error_removes_target : forall mk fm target data mode w m,
  fs_lookup target (fs w) <> Some FDir -> parent_check target (fs w) = None ->
  parse fm data = PErr m ->
  exists w', visit_file mk fm target data mode w = (VPanic m, w', []) /\ ps w' = ps w /\
    fs_lookup target (fs w') = None /\
    (forall t, t <> target -> fs_lookup t (fs w') = fs_lookup t (fs w)).
Proof.
  intros mk fm target data mode w m Hd Hp Hm.
  destruct (target_free target (fs w) Hd Hp) as (fs0 & Hr & Hl & Hp0 & Ho).
  rewrite (visit_file_open mk fm target data mode w fs0 Hr Hl Hp0). cbv zeta. rewrite Hm.
  eexists. split; [reflexivity|]. cbn [fs ps]. split; [reflexivity|].
  unfold prune, os_ReadFile. rewrite fs_lookup_put_same.
  rewrite (os_Remove_file _ _ EmptyString mode) by apply fs_lookup_put_same. simpl isOnlyWhitespace.
  change (isOnlyWhitespace EmptyString) with true. cbv iota. split; [apply fs_lookup_delete_same|].
  intros t Ht. rewrite fs_lookup_delete_other, fs_lookup_put_other by exact Ht. apply Ho. exact Ht.
Qed.

(** X10. When executing a file's contents fails, the callback returns the
    error and the target keeps the output written before the failure (unless
    that is blank, when it is pruned); the previous file is gone. *)
Theorem render_error_keeps_partial_output : forall mk fm target data mode w ns out x s1,
  fs_lookup target (fs w) <> Some FDir -> parent_check target (fs w) = None ->
  parse fm data = POk ns -> exec mk fm ns (ps w) = (out, Some x, s1) ->
  exists w', visit_file mk fm target data mode w = (VErr x, w', []) /\ ps w' = s1 /\
    fs_lookup target (fs w') = (if isOnlyWhitespace out then None else Some (FFile out mode)) /\
    (forall t, t <> target -> fs_lookup t (fs w') = fs_lookup t (fs w)).
Proof.
  intros mk fm target data mode w ns out x s1 Hd Hp Hns Hx.
  destruct (target_free target (fs w) Hd Hp) as (fs0 & Hr & Hl & Hp0 & Ho).
  rewrite (visit_file_open mk fm target data mode w fs0 Hr Hl Hp0). cbv zeta. rewrite Hns, Hx.
  eexists. split; [reflexivity|]. cbn [fs ps]. split; [reflexivity|].
  destruct (write_prune_lookup target out mode fs0) as [Ht Hf]. split; [exact Ht|].
  intros t Hne. rewrite Hf by exact Hne. apply Ho. exact Hne.
Qed.

Lemma fs_lookup_in t fz : fs_lookup t fz <> None <-> In t (map fst fz).
Proof.
  induction fz as [|[q n] fz IH]; simpl; [tauto|].
  destruct (path_eqb_spec q t) as [->|Hne].
  - split; intros _; [left; reflexivity | discriminate].
  - rewrite IH. split; [intro H; right; exact H | intros [H|H]; [congruence | exact H]].
Qed.

Lemma below_existsb p fz :
  existsb (fun e => is_prefix p (fst e) && negb (path_eqb (fst e) p)) fz = true <->
  exists t, t <> p /\ is_prefix p t = true /\ fs_lookup t fz <> None.
Proof.
  rewrite existsb_exists. split.
  - intros ([q n] & Hin & Hq). apply andb_prop in Hq as [Hq Hn]. simpl in Hq, Hn.
    exists q. split; [|split; [exact Hq|]].
    + destruct (path_eqb_spec q p); [discriminate | assumption].
    + apply fs_lookup_in. apply in_map_iff. exists (q, n). auto.
  - intros (t & Hne & Hpre & Hl). apply fs_lookup_in, in_map_iff in Hl as ([q n] & Hq & Hin).
    simpl in Hq. subst q. exists (t, n). split; [exact Hin|]. simpl. rewrite Hpre.
    destruct (path_eqb_spec t p); [congruence | reflexivity].
Qed.

(** X11. A file entry whose target is a directory: if the directory has
    anything below it the callback fails with ENOTEMPTY and changes nothing;
    if it is empty, [os.Remove] deletes it and the file takes its place. *)
Theorem file_entry_over_directory : forall mk fm target data mode w,
  fs_lookup target (fs w) = Some FDir ->
  ((exists t, t <> target /\ is_prefix target t = true /\ fs_lookup t (fs w) <> None) ->
   visit_file mk fm target data mode w = (VErr (XOs ENOTEMPTY), w, [])) /\
  (forall ns out s1, target <> [] ->
   (forall t, t <> target -> is_prefix target t = true -> fs_lookup t (fs w) = None) ->
   parent_check target (fs w) = None ->
   parse fm data = POk ns -> exec mk fm ns (ps w) = (out, None, s1) ->
   exists w', visit_file mk fm target data mode w = (VOk, w', [(target, Some out)]) /\
     fs_lookup target (fs w') = (if isOnlyWhitespace out then None else Some (FFile out mode)) /\
     (forall t, t <> target -> fs_lookup t (fs w') = fs_lookup t (fs w))).
Proof.
  intros mk fm target data mode w Hd. split.
  - intro Hb. apply below_existsb in Hb. unfold visit_file, os_Remove. rewrite Hd, Hb. reflexivity.
  - intros ns out s1 Hne Hb Hp Hns Hx.
    assert (Hr : os_Remove target (fs w) = OsOk (fs_delete target (fs w))).
    { unfold os_Remove. rewrite Hd.
      destruct (existsb _ (fs w)) eqn:E; [|reflexivity].
      apply below_existsb in E as (t & Ht & Hpre & Hl). exfalso. exact (Hl (Hb t Ht Hpre)). }
    rewrite (visit_file_open mk fm target data mode w (fs_delete target (fs w)) (or_introl Hr))
      by (apply fs_lookup_delete_same || (apply parent_check_delete; assumption)).
    cbv zeta. rewrite Hns, Hx.
    eexists. split; [reflexivity|]. cbn [fs].
    destruct (write_prune_lookup target out mode (fs_delete target (fs w))) as [Ht Hf].
    split; [exact Ht|]. intros t Htn. rewrite Hf by exact Htn. apply fs_lookup_delete_other. exact Htn.
Qed.

(** X12. The deferred pruning removes its path exactly when it is a file
    whose content is only whitespace; a directory, a missing path or a
    non-blank file is left as is, and no other path changes. *)
Theorem prune_removes_only_blank_file : forall fname fz,
  fs_lookup fname (prune fname fz) =
    match fs_lookup fname fz with
    | Some (FFile d m) => if isOnlyWhitespace d then None else Some (FFile d m)
    | o => o
    end /\
  (forall t, t <> fname -> fs_lookup t (prune fname fz) = fs_lookup t fz).
Proof.
  intros fname fz. split.
  - unfold prune, os_ReadFile. destruct (fs_lookup fname fz) as [[|d m]|] eqn:El; try exact El.
    destruct (isOnlyWhitespace d); [|exact El].
    rewrite (os_Remove_file _ _ d m El). apply fs_lookup_delete_same.
  - intros t Ht. unfold prune, os_ReadFile. destruct (fs_lookup fname fz) as [[|d m]|] eqn:El; auto.
    destruct (isOnlyWhitespace d); auto.
    rewrite (os_Remove_file _ _ d m El). apply fs_lookup_delete_other. exact Ht.
Qed.

(** X4. In a group that has a child with the group's own name, the child's
    binding replaces the group's advanced-mode gate under that name, in both
    modes. *)
Theorem group_child_named_like_group : forall fm k m cv,
  NoDup (map fst m) -> In (k, cv) m ->
  handleBindDefaults fm k (JObj m) k = Some (default_binding cv) /\
  handleBindPrompts fm k (JObj m) k =
    Some (child_binding (prompt_New (PKey k) (JBool false)) cv (prompt_New (PChild k k) cv)).
Proof.
  intros fm k m cv Hnd Hin. split; [apply hbd_child | apply hbp_child]; assumption.
Qed.



Section Free.
Variable mk : missingkey.
Variable fm : funcmap.
Hypothesis Hfree : forall n b, fm n = Some b -> prompt_free b.

Lemma exec_node_free nd : exists out e, forall s, exec_node mk fm nd s = (out, e, s).
Proof.
  destruct nd as [t|f|f]; simpl.
  - eexists _, _. intro s. reflexivity.
  - destruct mk; eexists _, _; intro s; reflexivity.
  - destruct (fm f) as [b|] eqn:Ef; [|eexists _, _; intro s; reflexivity].
    destruct (Hfree f b Ef) as [o Ho].
    destruct o; eexists _, _; intro s; rewrite Ho; reflexivity.
Qed.

Lemma exec_free ns : exists out e, forall s, exec mk fm ns s = (out, e, s).
Proof.
  induction ns as [|nd ns IH]; simpl; [eexists _, _; intro s; reflexivity|].
  destruct (exec_node_free nd) as (o1 & e1 & H1). destruct IH as (o2 & e2 & H2).
  destruct e1; eexists _, _; intro s; rewrite H1; [reflexivity|]. rewrite H2. reflexivity.
Qed.

Lemma visit_file_free target data mode fz :
  exists r fz' tr, forall s, visit_file mk fm target data mode (mkWorld fz s) = (r, mkWorld fz' s, tr).
Proof.
  unfold visit_file. cbn [fs ps].
  assert (Hopen : forall fs0, exists r fz' tr, forall s,
            match os_OpenFile target mode fs0 with
            | OsErr e => (VErr (XOs e), mkWorld fs0 s, [])
            | OsOk fs1 =>
                match parse fm data with
                | PErr m => (VPanic m, mkWorld (prune target fs1) s, [])
                | PUnsupported => (VUnsupported, mkWorld fs1 s, [])
                | POk ns =>
                    let '(out, err, s1) := exec mk fm ns s in
                    let fs2 := prune target (fs_write target out fs1) in
                    match err with
                    | Some x => (VErr x, mkWorld fs2 s1, [])
                    | None => (VOk, mkWorld fs2 s1, [(target, Some out)])
                    end
                end
            end = (r, mkWorld fz' s, tr)).
  { intro fs0. destruct (os_OpenFile target mode fs0) as [fs1|e];
      [|eexists _, _, _; intro s; reflexivity].
    destruct (parse fm data) as [ns| |]; try (eexists _, _, _; intro s; reflexivity).
    destruct (exec_free ns) as (out & e & He).
    destruct e; eexists _, _, _; intro s; rewrite He; reflexivity. }
  destruct (os_Remove target fz) as [fs'|[]]; try apply Hopen;
    eexists _, _, _; intro s; reflexivity.
Qed.

Lemma visit_free prefix e fz :
  exists r fz' tr, forall s, visit mk fm prefix e (mkWorld fz s) = (r, mkWorld fz' s, tr).
Proof.
  unfold visit. destruct (parse fm (rel_string (segs e))) as [ns| |];
    try (eexists _, _, _; intro s; reflexivity).
  destruct (exec_free ns) as (newName & err & He).
  destruct err as [x|].
  - eexists _, _, _. intro s. cbn [ps]. rewrite He. cbn [fs]. reflexivity.
  - destruct (kind e) as [|data mode].
    + destruct (os_Mkdir (join prefix newName) fz) as [fs'|[]] eqn:EM;
        eexists _, _, _; intro s; cbn [ps fs]; rewrite He; cbv zeta; cbn [fs]; rewrite EM;
        reflexivity.
    + destruct (visit_file_free (join prefix newName) data mode fz) as (r & fz' & tr & Hv).
      exists r, fz', tr. intro s. cbn [ps]. rewrite He. cbv zeta. apply Hv.
Qed.

Lemma walk_free prefix src : forall fz,
  exists r fz' tr, forall s, walk mk fm prefix src (mkWorld fz s) = (r, mkWorld fz' s, tr).
Proof.
  induction src as [|e src IH]; intro fz; simpl; [eexists _, _, _; intro s; reflexivity|].
  destruct (visit_free prefix e fz) as (r1 & fz1 & tr1 & H1).
  destruct r1; try (eexists _, _, _; intro s; rewrite H1; reflexivity).
  destruct (IH fz1) as (r2 & fz2 & tr2 & H2).
  eexists _, _, _. intro s. rewrite H1, H2. reflexivity.
Qed.
End Free.

Lemma defaults_bindings_free t :
  (forall n b, FuncMap t n = Some b -> prompt_free b) ->
  forall n b, BindPrompts (UseDefaultValues t) n = Some b -> prompt_free b.
Proof.
  unfold BindPrompts, UseDefaultValues. cbn [Context FuncMap ShouldUseDefaults].
  generalize (FuncMap t) as fm. induction (Context t) as [|[k v] ctx IH]; intros fm Hfm; simpl; auto.
  apply IH. unfold bind_key, handleBindDefaults. destruct v as [|bv|z|sv|l|m]; cbv beta iota zeta;
    try (apply fm_set_shape; [eexists; intro; reflexivity | exact Hfm]).
  pose proof (fold_set_shape (fun _ cv => default_binding cv) prompt_free) as Hf.
  cbv beta in Hf. apply Hf; [intros c cv; exists (first_default cv); intro; reflexivity|].
  destruct (Nat.ltb 0 (length m));
    [apply fm_set_shape; [exists (Ret (JBool false)); intro; reflexivity|] |]; exact Hfm.
Qed.

(** X5. After [UseDefaultValues], and with a function map whose functions do
    not use the prompt state, a render never reads or changes the prompt
    state: its outcome, destination and trace are the same for every state,
    and the state is left as it was. *)
Theorem defaults_render_ignores_prompt_state : forall mk t prefix fz,
  (forall n b, FuncMap t n = Some b -> prompt_free b) ->
  exists r fz' tr, forall s,
    Execute mk (UseDefaultValues t) prefix (mkWorld fz s) = (r, mkWorld fz' s, tr).
Proof.
  intros mk t prefix fz Hf. unfold Execute.
  destruct (Path (UseDefaultValues t)); [eexists _, _, _; intro; reflexivity|].
  destruct (find _ _); [eexists _, _, _; intro; reflexivity|].
  destruct (forallb _ _); [|eexists _, _, _; intro; reflexivity].
  apply walk_free. apply defaults_bindings_free. exact Hf.
Qed.

(** ** Instances of the further properties on concrete inputs *)

Lemma bind_prompts_keeps_undeclared_witness :
  ~ In "upper" (ctx_names ex_ctx) /\
  BindPrompts (mkTemplate [] ex_ctx (fm_set "upper" false_binding fm_empty) true) "upper" =
    Some false_binding.
Proof.
  assert (H : ~ In "upper" (ctx_names ex_ctx)) by (vm_compute; intuition discriminate).
  split; [exact H|].
  exact (bind_prompts_keeps_undeclared
           (mkTemplate [] ex_ctx (fm_set "upper" false_binding fm_empty) true) "upper" H).
Defined.

Lemma bind_prompts_order_independent_witness :
  BindPrompts (mkTemplate [] ex_ctx fm_empty true) "port" =
  BindPrompts (mkTemplate [] (rev ex_ctx) fm_empty true) "port".
Proof.
  apply bind_prompts_order_independent; [solve_nodup | apply Permutation_rev].
Defined.

Lemma bind_prompts_last_declaration_wins_witness :
  BindPrompts (mkTemplate [] [("adv", JObj [("port", JNum 1)]); ("port", JNum 2)] fm_empty true)
              "port" = Some (default_binding (JNum 2)).
Proof.
  exact (bind_prompts_last_declaration_wins [] [("adv", JObj [("port", JNum 1)])] "port" (JNum 2)
           [] fm_empty true "port" (or_introl eq_refl) ltac:(discriminate) (fun H => H)).
Defined.

Lemma group_child_named_like_group_witness :
  handleBindDefaults fm_empty "db" (JObj [("db", JStr "pg")]) "db" =
    Some (default_binding (JStr "pg")).
Proof.
  apply (group_child_named_like_group fm_empty "db" [("db", JStr "pg")] (JStr "pg"));
    [solve_nodup | left; reflexivity].
Defined.

Lemma defaults_render_ignores_prompt_state_witness :
  exists r fz' tr, forall s,
    Execute MKDefault (UseDefaultValues (mkTemplate ex_adv_src ex_adv_ctx fm_empty false)) ex_dst
            (mkWorld [(ex_dst, FDir)] s) = (r, mkWorld fz' s, tr).
Proof.
  apply defaults_render_ignores_prompt_state. simpl. discriminate.
Defined.

Lemma content_parse_error_removes_target_witness :
  exists m w', parse fm_empty "{{nope}}" = PErr m /\
    visit_file MKDefault fm_empty ["dst"; "a.txt"] "{{nope}}" 420%Z ex_w_old = (VPanic m, w', []) /\
    fs_lookup ["dst"; "a.txt"] (fs w') = None.
Proof.
  assert (Hp : exists m, parse fm_empty "{{nope}}" = PErr m) by (eexists; vm_compute; reflexivity).
  destruct Hp as [m Hp].
  destruct (content_parse_error_removes_target MKDefault fm_empty ["dst"; "a.txt"] "{{nope}}"
              420%Z ex_w_old m ltac:(discriminate) eq_refl Hp) as (w' & H1 & _ & H2 & _).
  exists m, w'. auto.
Defined.

Lemma render_error_keeps_partial_output_witness :
  exists x w', visit_file MKError fm_empty ["dst"; "a.txt"] "ab{{.x}}" 420%Z ex_w_old =
               (VErr x, w', []) /\
    fs_lookup ["dst"; "a.txt"] (fs w') = Some (FFile "ab" 420%Z).
Proof.
  assert (Hx : exists x, exec MKError fm_empty [TText "ab"; TField "x"] ex_s0 = ("ab", Some x, ex_s0))
    by (eexists; reflexivity).
  destruct Hx as [x Hx].
  destruct (render_error_keeps_partial_output MKError fm_empty ["dst"; "a.txt"] "ab{{.x}}" 420%Z
              ex_w_old [TText "ab"; TField "x"] "ab" x ex_s0 ltac:(discriminate) eq_refl
              ltac:(vm_compute; reflexivity) Hx) as (w' & H1 & _ & H2 & _).
  exists x, w'. split; [exact H1|]. rewrite H2. reflexivity.
Defined.

Lemma file_entry_over_directory_witness :
  visit_file MKDefault fm_empty ["dst"; "d"] "x" 420%Z
    (mkWorld [(["dst"; "d"; "y"], FFile "y" 420%Z); (["dst"; "d"], FDir); (ex_dst, FDir)] ex_s0) =
  (VErr (XOs ENOTEMPTY),
   mkWorld [(["dst"; "d"; "y"], FFile "y" 420%Z); (["dst"; "d"], FDir); (ex_dst, FDir)] ex_s0, []).
Proof.
  apply (proj1 (file_entry_over_directory MKDefault fm_empty ["dst"; "d"] "x" 420%Z
           (mkWorld [(["dst"; "d"; "y"], FFile "y" 420%Z); (["dst"; "d"], FDir); (ex_dst, FDir)]
              ex_s0) eq_refl)).
  exists ["dst"; "d"; "y"]. split; [discriminate|]. split; [reflexivity | discriminate].
Defined.
